(** * Car-cover attribute extraction: the text classifiers of [Car_cover.py]

    The development embeds the four extractors of [src/Car_cover.py]
    ([_detect_material], [_detect_vehicle_type], [_extract_size] and the
    two flag searches of [CarCoverScraper._extract_cover_specs]) together
    with the part of the Python runtime they call: [str.lower],
    [str.upper], the [in] operator on strings, and [re.search] on the
    three patterns that occur in the file. *)

From Stdlib Require Import List NArith Bool String Ascii Lia PeanoNat.
Import ListNotations.

Set Implicit Arguments.

(** ** Python text: sequences of Unicode code points *)

Module Unicode.

(** A Python [str] is a sequence of code points; a code point is a
    number. *)
Definition cp := N.
Definition str := list cp.

Local Open Scope N_scope.

(** The source file is UTF-8; literals are written here as Rocq strings
    (byte sequences) and decoded to code points the way the Python
    tokenizer decodes the source.  A malformed tail decodes to U+FFFD. *)
Fixpoint utf8_decode (bs : list N) : str :=
  match bs with
  | [] => []
  | b0 :: t0 =>
    if b0 <? 0x80 then b0 :: utf8_decode t0
    else if b0 <? 0xC0 then 0xFFFD :: utf8_decode t0
    else
      match t0 with
      | [] => [0xFFFD]
      | b1 :: t1 =>
        if b0 <? 0xE0
        then ((b0 - 0xC0) * 64 + (b1 - 0x80)) :: utf8_decode t1
        else
          match t1 with
          | [] => [0xFFFD]
          | b2 :: t2 =>
            if b0 <? 0xF0
            then ((b0 - 0xE0) * 4096 + (b1 - 0x80) * 64 + (b2 - 0x80))
                   :: utf8_decode t2
            else
              match t2 with
              | [] => [0xFFFD]
              | b3 :: t3 =>
                ((b0 - 0xF0) * 262144 + (b1 - 0x80) * 4096
                 + (b2 - 0x80) * 64 + (b3 - 0x80)) :: utf8_decode t3
              end
          end
      end
  end.

Definition bytes_of (s : string) : list N :=
  List.map N_of_ascii (list_ascii_of_string s).

(** [py "..."] is the Python string written [...] in the source. *)
Definition py (s : string) : str := utf8_decode (bytes_of s).

(** *** Case mappings

    [str.lower] and [str.upper] map every code point to a short sequence
    of code points (the full Unicode case mapping).  Every keyword that
    the program looks for in a lowered or uppered text is ASCII, so what
    matters of the mapping is which ASCII code points it produces and
    where.  The tables below give the mapping exactly for every code
    point whose image contains an ASCII code point; the remaining code
    points (whose images, the context-dependent one of capital sigma
    included, lie entirely outside ASCII and are never empty) are left in
    place. *)

Definition is_ascii_upper (c : cp) : bool := (65 <=? c) && (c <=? 90).
Definition is_ascii_lower (c : cp) : bool := (97 <=? c) && (c <=? 122).

Definition lower_cp (c : cp) : list cp :=
  if is_ascii_upper c then [c + 32]
  else if c =? 0x130 then [0x69; 0x307]   (* I with dot above *)
  else if c =? 0x212A then [0x6B]         (* Kelvin sign *)
  else [c].

Definition upper_cp (c : cp) : list cp :=
  if is_ascii_lower c then [c - 32]
  else if c =? 0xDF then [0x53; 0x53]             (* sharp s *)
  else if c =? 0x131 then [0x49]                  (* dotless i *)
  else if c =? 0x149 then [0x2BC; 0x4E]
  else if c =? 0x17F then [0x53]                  (* long s *)
  else if c =? 0x1F0 then [0x4A; 0x30C]
  else if c =? 0x1E96 then [0x48; 0x331]
  else if c =? 0x1E97 then [0x54; 0x308]
  else if c =? 0x1E98 then [0x57; 0x30A]
  else if c =? 0x1E99 then [0x59; 0x30A]
  else if c =? 0x1E9A then [0x41; 0x2BE]
  else if c =? 0xFB00 then [0x46; 0x46]           (* ligatures ff .. st *)
  else if c =? 0xFB01 then [0x46; 0x49]
  else if c =? 0xFB02 then [0x46; 0x4C]
  else if c =? 0xFB03 then [0x46; 0x46; 0x49]
  else if c =? 0xFB04 then [0x46; 0x46; 0x4C]
  else if c =? 0xFB05 then [0x53; 0x54]
  else if c =? 0xFB06 then [0x53; 0x54]
  else [c].

(** [text.lower()] and [text.upper()]. *)
Definition lower (text : str) : str := flat_map lower_cp text.
Definition upper (text : str) : str := flat_map upper_cp text.

(** *** Character classes of the [re] module on [str] patterns *)

(** [\s]: Unicode white space. *)
Definition isspace (c : cp) : bool :=
  ((0x09 <=? c) && (c <=? 0x0D)) || ((0x1C <=? c) && (c <=? 0x20))
  || (c =? 0x85) || (c =? 0xA0) || (c =? 0x1680)
  || ((0x2000 <=? c) && (c <=? 0x200A))
  || (c =? 0x2028) || (c =? 0x2029) || (c =? 0x202F) || (c =? 0x205F)
  || (c =? 0x3000).

(** [\d]: the decimal digits of every script (general category Nd).  They
    come in runs of ten, listed by the code point of their zero, except
    the mathematical digits U+1D7CE..U+1D7FF, a run of fifty. *)
Definition decimal_zeros : list cp :=
  [0x30; 0x660; 0x6F0; 0x7C0; 0x966; 0x9E6; 0xA66; 0xAE6; 0xB66; 0xBE6;
   0xC66; 0xCE6; 0xD66; 0xDE6; 0xE50; 0xED0; 0xF20; 0x1040; 0x1090;
   0x17E0; 0x1810; 0x1946; 0x19D0; 0x1A80; 0x1A90; 0x1B50; 0x1BB0;
   0x1C40; 0x1C50; 0xA620; 0xA8D0; 0xA900; 0xA9D0; 0xA9F0; 0xAA50;
   0xABF0; 0xFF10; 0x104A0; 0x10D30; 0x11066; 0x110F0; 0x11136;
   0x111D0; 0x112F0; 0x11450; 0x114D0; 0x11650; 0x116C0; 0x11730;
   0x118E0; 0x11950; 0x11C50; 0x11D50; 0x11DA0; 0x16A60; 0x16AC0;
   0x16B50; 0x1D7CE; 0x1D7D8; 0x1D7E2; 0x1D7EC; 0x1D7F6; 0x1E140;
   0x1E2F0; 0x1E950; 0x1FBF0].

Definition isdigit (c : cp) : bool :=
  existsb (fun z => (z <=? c) && (c <? z + 10)) decimal_zeros.

(** *** Case-insensitive comparison of the [re] module

    With [re.I] on a [str] pattern a literal [p] matches the character
    [ch] when the simple lowercase of [ch] is the lowercase of [p] or one
    of the other members of its case-equivalence class.  The patterns of
    the program use ASCII letters only; for those the simple lowercase
    table is needed only where it lands in ASCII or on a member of such a
    class. *)
Definition sre_lower (c : cp) : cp :=
  if is_ascii_upper c then c + 32
  else if c =? 0x130 then 0x69
  else if c =? 0x212A then 0x6B
  else c.

(** The case-equivalence classes that contain an ASCII letter. *)
Definition sre_fixes (lo : cp) : list cp :=
  if lo =? 0x69 then [0x131]        (* i, dotless i *)
  else if lo =? 0x73 then [0x17F]   (* s, long s *)
  else [].

Definition eq_ignorecase (p ch : cp) : bool :=
  let lo := sre_lower p in
  existsb (N.eqb (sre_lower ch)) (lo :: sre_fixes lo).

End Unicode.

Export Unicode.

(** ** The [in] operator on strings *)

Module Str.

Local Open Scope N_scope.

(** [startswith kw text]: [text] begins with [kw]. *)
Fixpoint startswith (kw text : str) : bool :=
  match kw, text with
  | [], _ => true
  | _ :: _, [] => false
  | k :: kw', c :: text' => (k =? c) && startswith kw' text'
  end.

(** [contains kw text] is the Python expression [kw in text]: [kw] occurs
    in [text] as a contiguous run. *)
Fixpoint contains (kw text : str) : bool :=
  startswith kw text
  || match text with
     | [] => false
     | _ :: text' => contains kw text'
     end.

End Str.

Export Str.

(** ** Exceptions *)

(** The exceptions that the calls made by the extractors can raise. *)
Inductive exn : Type :=
| re_error      (* re.error: the pattern does not compile *)
| IndexError.   (* Match.group: no such group *)

Inductive result (A : Type) : Type :=
| Ok (a : A)
| Raise (e : exn).

Arguments Ok {A} a.
Arguments Raise {A} e.

Definition bind {A B : Type} (m : result A) (f : A -> result B) : result B :=
  match m with
  | Ok a => f a
  | Raise e => Raise e
  end.

Declare Scope py_scope.
Delimit Scope py_scope with py_do.
Notation "x <- m ;; k" := (bind m (fun x => k))
  (at level 61, m at next level, right associativity) : py_scope.
Open Scope py_scope.

(** ** The [re] module, as far as the program uses it *)

Module Re.

Local Open Scope N_scope.

Inductive category : Type :=
| CATEGORY_DIGIT    (* \d *)
| CATEGORY_SPACE.   (* \s *)

(** Parsed patterns, named after the opcodes of [sre_parse]. *)
Inductive regex : Type :=
| Empty                                (* the empty sequence *)
| Literal (c : cp)
| Category (k : category)
| InSet (items : list cp)              (* [...] of literal characters *)
| Seq (r1 r2 : regex)
| Branch (r1 r2 : regex)               (* r1|r2, r1 tried first *)
| Star (r : regex)                     (* greedy r* *)
| Plus (r : regex)                     (* greedy r+ *)
| Subpattern (i : nat) (r : regex).    (* capturing group number i *)

(** *** Parsing a pattern

    A recursive-descent parser for the pattern syntax that the program
    uses: literals, [\d], [\s], bracketed sets of literals, capturing
    groups, [*], [+] and [|].  Any other construct is answered with
    [None] (the caller raises [re.error]); none occurs in the program.
    The counter [g] is the number of groups opened so far. *)

Definition is_special (c : cp) : bool :=
  existsb (N.eqb c) (py ".^$*+?{}[]\|()").

Fixpoint parse_set (p : str) : option (list cp * str) :=
  match p with
  | [] => None
  | c :: rest =>
    if c =? 0x5D (* ] *) then Some ([], rest)
    else if (c =? 0x5C) || (c =? 0x5B) || (c =? 0x5E) || (c =? 0x2D)
    then None (* escapes, nested brackets, negation, ranges *)
    else match parse_set rest with
         | Some (items, rest') => Some (c :: items, rest')
         | None => None
         end
  end.

Definition parse_repeat (r : regex) (p : str) : regex * str :=
  match p with
  | 0x2A (* * *) :: rest => (Star r, rest)
  | 0x2B (* + *) :: rest => (Plus r, rest)
  | _ => (r, p)
  end.

Fixpoint parse_branch (fuel : nat) (p : str) (g : nat)
  : option (regex * str * nat) :=
  match fuel with
  | O => None
  | S fuel' =>
    match parse_items fuel' p g with
    | None => None
    | Some (r1, rest, g1) =>
      match rest with
      | 0x7C (* | *) :: rest' =>
        match parse_branch fuel' rest' g1 with
        | Some (r2, rest2, g2) => Some (Branch r1 r2, rest2, g2)
        | None => None
        end
      | _ => Some (r1, rest, g1)
      end
    end
  end

with parse_items (fuel : nat) (p : str) (g : nat)
  : option (regex * str * nat) :=
  match fuel with
  | O => None
  | S fuel' =>
    match p with
    | [] => Some (Empty, [], g)
    | c :: rest =>
      if (c =? 0x7C) || (c =? 0x29) then Some (Empty, p, g)
      else
        let atom :=
          if c =? 0x28 (* ( *) then
            match parse_branch fuel' rest (S g) with
            | Some (r, 0x29 :: rest', g') => Some (Subpattern (S g) r, rest', g')
            | _ => None
            end
          else if c =? 0x5B (* [ *) then
            match parse_set rest with
            | Some (items, rest') => Some (InSet items, rest', g)
            | None => None
            end
          else if c =? 0x5C (* \ *) then
            match rest with
            | 0x64 :: rest' => Some (Category CATEGORY_DIGIT, rest', g)
            | 0x73 :: rest' => Some (Category CATEGORY_SPACE, rest', g)
            | _ => None
            end
          else if is_special c then None
          else Some (Literal c, rest, g) in
        match atom with
        | None => None
        | Some (a, rest1, g1) =>
          let (a', rest2) := parse_repeat a rest1 in
          match parse_items fuel' rest2 g1 with
          | Some (r, rest3, g2) => Some (Seq a' r, rest3, g2)
          | None => None
          end
        end
    end
  end.

(** A compiled pattern: the parsed expression and its number of groups. *)
Record Pattern : Type := mkPattern {
  p_regex : regex;
  p_groups : nat
}.

(** [re.compile(pattern)]. *)
Definition compile (pattern : str) : result Pattern :=
  match parse_branch (2 * List.length pattern + 2) pattern 0 with
  | Some (r, [], g) => Ok (mkPattern r g)
  | _ => Raise re_error
  end.

(** *** Matching

    The matcher is the backtracking matcher of [re] written as a list of
    successes: [run fl r s c] lists, in the order in which backtracking
    would reach them, every way in which [r] matches a prefix of [s],
    each as the unread rest of [s] and the groups captured so far.  [fl]
    is the [re.I] flag. *)

Definition captures := list (nat * str).

Definition state : Type := str * captures.

Definition category_test (k : category) (ch : cp) : bool :=
  match k with
  | CATEGORY_DIGIT => isdigit ch
  | CATEGORY_SPACE => isspace ch
  end.

Definition literal_test (fl : bool) (p ch : cp) : bool :=
  if fl then eq_ignorecase p ch else p =? ch.

(** One character against a test. *)
Definition step (test : cp -> bool) (s : str) (c : captures) : list state :=
  match s with
  | ch :: s' => if test ch then [(s', c)] else []
  | [] => []
  end.

(** The greedy loop of [*]: one more round of the body first, provided
    the round read something, then the exit. *)
Fixpoint loop (body : str -> captures -> list state) (n : nat)
    (s : str) (c : captures) : list state :=
  match n with
  | O => [(s, c)]
  | S n' =>
    flat_map (fun st : state =>
                if (List.length (fst st) <? List.length s)%nat
                then loop body n' (fst st) (snd st)
                else [])
             (body s c)
    ++ [(s, c)]
  end.

(** The text read between [s] and its suffix [s']. *)
Definition consumed (s s' : str) : str :=
  firstn (List.length s - List.length s') s.

Fixpoint run (fl : bool) (r : regex) (s : str) (c : captures) : list state :=
  match r with
  | Empty => [(s, c)]
  | Literal p => step (literal_test fl p) s c
  | Category k => step (category_test k) s c
  | InSet items => step (fun ch => existsb (fun p => literal_test fl p ch) items) s c
  | Seq r1 r2 =>
    flat_map (fun st : state => run fl r2 (fst st) (snd st)) (run fl r1 s c)
  | Branch r1 r2 => run fl r1 s c ++ run fl r2 s c
  | Star r1 => loop (run fl r1) (List.length s) s c
  | Plus r1 =>
    flat_map (fun st : state =>
                loop (run fl r1) (List.length (fst st)) (fst st) (snd st))
             (run fl r1 s c)
  | Subpattern i r1 =>
    List.map (fun st : state => (fst st, (i, consumed s (fst st)) :: snd st))
             (run fl r1 s c)
  end.

(** A match object: where the match lies, its text, and its groups. *)
Record Match : Type := mkMatch {
  m_start : nat;
  m_text : str;
  m_captures : captures;
  m_ngroups : nat
}.

(** The scan of [search]: the first start position, from the left, at
    which the pattern matches; there, the first success. *)
Fixpoint scan (fl : bool) (pat : Pattern) (s : str) (pos : nat) : option Match :=
  match run fl (p_regex pat) s [] with
  | (s', c) :: _ => Some (mkMatch pos (consumed s s') c (p_groups pat))
  | [] =>
    match s with
    | [] => None
    | _ :: s1 => scan fl pat s1 (S pos)
    end
  end.

(** [re.search(pattern, string, flags)] with [flags] either [0] or
    [re.I]. *)
Definition search (pattern : str) (text : str) (fl : bool) : result (option Match) :=
  pat <- compile pattern ;;
  Ok (scan fl pat text 0).

Fixpoint lookup (i : nat) (c : captures) : option str :=
  match c with
  | [] => None
  | (j, w) :: c' => if Nat.eqb i j then Some w else lookup i c'
  end.

(** [m.group(i)]: the text of group [i], [None] for a group that took no
    part in the match, [IndexError] for a group the pattern lacks. *)
Definition group (m : Match) (i : nat) : result (option str) :=
  if Nat.eqb i 0 then Ok (Some (m_text m))
  else if (i <=? m_ngroups m)%nat then Ok (lookup i (m_captures m))
  else Raise IndexError.

End Re.

Import Re.

(** ** The extractors of [Car_cover.py] *)

(** A Python [dict] literal iterated with [.items()]: its entries in
    insertion order. *)
Definition keyword_table := list (str * list str).

(** The loop shared by the two keyword classifiers:
    [for label, keywords in table.items(): if any(test(kw) for kw in
    keywords): return label], and [None] after the loop. *)
Fixpoint first_label (test : str -> bool) (table : keyword_table) : option str :=
  match table with
  | [] => None
  | (label, keywords) :: rest =>
    if existsb test keywords then Some label else first_label test rest
  end.

Definition materials : keyword_table :=
  [ (py "polyester", [py "polyester"; py "poly"]);
    (py "nylon", [py "nylon"]);
    (py "cotton", [py "cotton"]);
    (py "PVC", [py "PVC"; py "vinyl"]) ].

Definition _detect_material (text : str) : option str :=
  let text_lower := lower text in
  first_label (fun kw => contains kw text_lower) materials.

Definition types : keyword_table :=
  [ (py "SUV", [py "SUV"; py "sport utility"]);
    (py "sedan", [py "sedan"]);
    (py "hatchback", [py "hatchback"; py "hatch"]);
    (py "universal", [py "universal"; py "all cars"; py "fit all"]) ].

Definition _detect_vehicle_type (text : str) : option str :=
  let text_upper := upper text in
  first_label (fun kw => contains (upper kw) text_upper) types.

(** A replacement field of an f-string: [None] is written [None]. *)
Definition format_field (v : option str) : str :=
  match v with
  | Some w => w
  | None => py "None"
  end.

Definition size_pattern : str := py "(\d+)\s*cm\s*[x√ó]\s*(\d+)\s*cm".

Definition _extract_size (text : str) : result (option str) :=
  size_match <- search size_pattern text false ;;
  match size_match with
  | Some m =>
    g1 <- group m 1 ;;
    g2 <- group m 2 ;;
    Ok (Some (format_field g1 ++ py "x" ++ format_field g2 ++ py "cm"))
  | None => Ok None
  end.

(** The record built by [_extract_cover_specs] (a [dict] with these five
    keys). *)
Record specs : Type := mkSpecs {
  material : option str;
  vehicle_type : option str;
  is_waterproof : bool;
  has_uv_protection : bool;
  size : option str
}.

(** [bool(m)] for the result of a search. *)
Definition truth (m : option Match) : bool :=
  match m with
  | Some _ => true
  | None => false
  end.

Definition waterproof_pattern : str := py "water\s*proof|rain\s*proof".
Definition uv_pattern : str := py "UV|ultraviolet|sun\s*protect".

Definition _extract_cover_specs (description : str) : result specs :=
  let mat := _detect_material description in
  let vt := _detect_vehicle_type description in
  wp <- search waterproof_pattern description true ;;
  uv <- search uv_pattern description true ;;
  sz <- _extract_size description ;;
  Ok (mkSpecs mat vt (truth wp) (truth uv) sz).

(** ** The callers: [_scrape_listing_page] and [scrape]

    The scraper reaches the extraction through the network and an HTML
    parser.  What those calls deliver is taken here as given: a value, or
    an exception (which the [except Exception] around the call catches). *)

Inductive fetched (A : Type) : Type :=
| Fetched (a : A)
| Failed.

Arguments Fetched {A} a.
Arguments Failed {A}.

(** [_scrape_listing_page]: [div] is what [session.get], [BeautifulSoup]
    and [soup.find('div', itemDescription)] delivered, the text of the
    block when there is one.  A page without the block is read as the
    empty description; any exception gives [None]. *)
Definition _scrape_listing_page (div : fetched (option str)) : option specs :=
  match div with
  | Failed => None
  | Fetched found =>
    let description :=
      match found with
      | Some text => text
      | None => py ""
      end in
    match _extract_cover_specs description with
    | Ok specs => Some specs
    | Raise _ => None
    end
  end.

(** The values that the rows hold, and rows as [dict]s: keys in the
    order of their first insertion, one entry per key. *)
Inductive value : Type :=
| VNone
| VBool (b : bool)
| VStr (s : str).

Definition dict := list (str * value).

Fixpoint str_eqb (a b : str) : bool :=
  match a, b with
  | [], [] => true
  | x :: a', y :: b' => (x =? y)%N && str_eqb a' b'
  | _, _ => false
  end.

(** [d[k] = v]. *)
Fixpoint setitem (d : dict) (k : str) (v : value) : dict :=
  match d with
  | [] => [(k, v)]
  | (k', v') :: d' =>
    if str_eqb k k' then (k, v) :: d' else (k', v') :: setitem d' k v
  end.

(** [d.get(k)]. *)
Fixpoint getitem (d : dict) (k : str) : option value :=
  match d with
  | [] => None
  | (k', v') :: d' => if str_eqb k k' then Some v' else getitem d' k
  end.

(** A [dict] display: the items are inserted from left to right. *)
Definition display (items : list (str * value)) : dict :=
  fold_left (fun d kv => setitem d (fst kv) (snd kv)) items [].

Definition of_option (v : option str) : value :=
  match v with
  | Some s => VStr s
  | None => VNone
  end.

(** The record of [_extract_cover_specs] as the items of its [dict]. *)
Definition specs_items (sp : specs) : list (str * value) :=
  [ (py "material", of_option (material sp));
    (py "vehicle_type", of_option (vehicle_type sp));
    (py "is_waterproof", VBool (is_waterproof sp));
    (py "has_uv_protection", VBool (has_uv_protection sp));
    (py "size", of_option (size sp)) ].

(** [bool(d)] for a [dict]. *)
Definition dict_truth (d : dict) : bool :=
  match d with
  | [] => false
  | _ :: _ => true
  end.

(** [s.strip()]. *)
Fixpoint lstrip (s : str) : str :=
  match s with
  | ch :: s' => if isspace ch then lstrip s' else s
  | [] => []
  end.

Definition strip (s : str) : str := rev (lstrip (rev (lstrip s))).

(** One [li] of a result page, as the loop of [scrape] meets it: the text
    of the three [span]s and the [href] of the link, each [None] when
    the node (or the attribute) is missing; what fetching the page of the
    listing delivers; and the time read when the row is built. *)
Record listing : Type := mkListing {
  itemTitle : option str;
  itemPrice : option str;
  item_location : option str;
  itemAd_href : option str;
  itemPage : fetched (option str);
  scraped_at : str
}.

Definition base_url : str := py "https://www.olx.in".

Section Scrape.

(** [urllib.parse.urljoin]: the joined link, or [Failed] when the call
    raises ([ValueError] on a link that cannot be parsed). *)
Variable urljoin : str -> str -> fetched str.

(** The row appended for a listing. *)
Definition listing_row (title price location link : str) (sp : specs)
    (now : str) : dict :=
  display ([ (py "title", VStr title);
             (py "price", VStr price);
             (py "location", VStr location);
             (py "url", VStr link) ]
           ++ specs_items sp
           ++ [ (py "scraped_at", VStr now) ]).

(** The loop over the listings of one page.  A missing node raises
    ([None] has no [.text], no [['href']]), and so may [urljoin]; the
    exception leaves the loop and is caught by [scrape], around the
    whole page. *)
Fixpoint listings_loop (listings : list listing) (listing_data : list dict)
  : fetched (list dict) :=
  match listings with
  | [] => Fetched listing_data
  | l :: rest =>
    match itemTitle l, itemPrice l, item_location l, itemAd_href l with
    | Some t, Some p, Some loc, Some href =>
      let title := strip t in
      let price := strip p in
      let location := strip loc in
      match urljoin base_url href with
      | Failed => Failed
      | Fetched link =>
        match _scrape_listing_page (itemPage l) with
        | Some sp =>
          if dict_truth (display (specs_items sp))
          then listings_loop rest
                 (listing_data
                    ++ [listing_row title price location link sp (scraped_at l)])
          else listings_loop rest listing_data
        | None => listings_loop rest listing_data
        end
      end
    | _, _, _, _ => Failed
    end
  end.

(** The loop over the pages: [pages] holds, page after page, what
    fetching the result page delivered, its listings or an exception. *)
Fixpoint pages_loop (pages : list (fetched (list listing)))
    (results : list dict) : list dict :=
  match pages with
  | [] => results
  | Failed :: rest => pages_loop rest results
  | Fetched listings :: rest =>
    match listings_loop listings [] with
    | Fetched listing_data => pages_loop rest (results ++ listing_data)
    | Failed => pages_loop rest results
    end
  end.

(** [scrape]: the rows handed to [_save_results] and returned. *)
Definition scrape (pages : list (fetched (list listing))) : list dict :=
  pages_loop pages [].

End Scrape.

(** A listing with its four nodes. *)
Definition complete (l : listing) : bool :=
  match itemTitle l, itemPrice l, item_location l, itemAd_href l with
  | Some _, Some _, Some _, Some _ => true
  | _, _, _, _ => false
  end.

(** The link of a listing, as the value of a column. *)
Definition link_of (urljoin : str -> str -> fetched str) (l : listing)
  : option value :=
  match itemAd_href l with
  | Some href =>
    match urljoin base_url href with
    | Fetched link => Some (VStr link)
    | Failed => None
    end
  | None => None
  end.

(** A listing whose link [urljoin] joins without raising. *)
Definition joins (urljoin : str -> str -> fetched str) (l : listing) : bool :=
  match itemAd_href l with
  | Some href =>
    match urljoin base_url href with
    | Fetched _ => true
    | Failed => false
    end
  | None => false
  end.

(** A listing whose own page could be fetched. *)
Definition page_fetched (l : listing) : bool :=
  match itemPage l with
  | Fetched _ => true
  | Failed => false
  end.

(** ** The pattern cache of the [re] module

    [re.search(pattern, string, flags)] is
    [_compile(pattern, flags).search(string)], and [_compile] keeps the
    patterns it has compiled in the module-wide [dict] [re._cache].  This
    cache is the one piece of state that a call of the extractors reads
    and writes and that outlives the call: the two keyword tables are
    built anew at each call, and nothing else is shared.  Below, the
    extraction is written once more with the cache passed in and out, so
    that a second call can be run in the state that a first call left. *)

(** A compiled pattern object: the parsed pattern and the flags it was
    compiled with. *)
Record Compiled : Type := mkCompiled {
  c_pattern : Pattern;
  c_flags : bool
}.

(** The keys of the cache, [(type(pattern), pattern, flags)], with the
    flags as a number. *)
Inductive pattern_type : Type :=
| str_pattern
| bytes_pattern.

Definition cache_key : Type := (pattern_type * list N * N)%type.

(** [re._cache], a [dict]: its entries, oldest first.  It holds the
    patterns of every user of [re] in the process; an entry under a key
    that this program does not use stands for an object that is not
    described here, and is never looked at. *)
Definition cache : Type := list (cache_key * Compiled).

Definition _MAXCACHE : nat := 512.

(** The value of the flags of a call: [0], or [re.I]. *)
Definition flags_value (fl : bool) : N := if fl then 2%N else 0%N.

Definition pattern_type_eqb (t1 t2 : pattern_type) : bool :=
  match t1, t2 with
  | str_pattern, str_pattern | bytes_pattern, bytes_pattern => true
  | _, _ => false
  end.

Definition key_eqb (k1 k2 : cache_key) : bool :=
  pattern_type_eqb (fst (fst k1)) (fst (fst k2))
  && str_eqb (snd (fst k1)) (snd (fst k2))
  && (snd k1 =? snd k2)%N.

(** [_cache[key]], [None] for [KeyError]. *)
Fixpoint cache_lookup (c : cache) (k : cache_key) : option Compiled :=
  match c with
  | [] => None
  | (k', co) :: c' => if key_eqb k k' then Some co else cache_lookup c' k
  end.

(** [re._compile(pattern, flags)]: the cached object if there is one;
    otherwise the pattern is compiled, the oldest entry is dropped from a
    full cache, and the new object is stored. *)
Definition _compile (pattern : str) (fl : bool) (c : cache)
  : result Compiled * cache :=
  let key := (str_pattern, pattern, flags_value fl) in
  match cache_lookup c key with
  | Some co => (Ok co, c)
  | None =>
    match compile pattern with
    | Raise e => (Raise e, c)
    | Ok p =>
      let co := mkCompiled p fl in
      let c1 := if (_MAXCACHE <=? List.length c)%nat then tl c else c in
      (Ok co, c1 ++ [(key, co)])
    end
  end.

(** [re.search(pattern, string, flags)], with the cache. *)
Definition cached_search (pattern text : str) (fl : bool) (c : cache)
  : result (option Match) * cache :=
  match _compile pattern fl c with
  | (Ok co, c1) => (Ok (scan (c_flags co) (c_pattern co) text 0), c1)
  | (Raise e, c1) => (Raise e, c1)
  end.

(** [_extract_size], with the cache. *)
Definition _extract_size_in (text : str) (c : cache)
  : result (option str) * cache :=
  match cached_search size_pattern text false c with
  | (Raise e, c1) => (Raise e, c1)
  | (Ok size_match, c1) =>
    (match size_match with
     | Some m =>
       g1 <- group m 1 ;;
       g2 <- group m 2 ;;
       Ok (Some (format_field g1 ++ py "x" ++ format_field g2 ++ py "cm"))
     | None => Ok None
     end, c1)
  end.

(** [_extract_cover_specs], with the cache: the items of the [dict]
    display are evaluated from first to last, so the waterproof pattern
    is searched first, the UV pattern next, the size pattern last. *)
Definition _extract_cover_specs_in (description : str) (c : cache)
  : result specs * cache :=
  let mat := _detect_material description in
  let vt := _detect_vehicle_type description in
  match cached_search waterproof_pattern description true c with
  | (Raise e, c1) => (Raise e, c1)
  | (Ok wp, c1) =>
    match cached_search uv_pattern description true c1 with
    | (Raise e, c2) => (Raise e, c2)
    | (Ok uv, c2) =>
      match _extract_size_in description c2 with
      | (Raise e, c3) => (Raise e, c3)
      | (Ok sz, c3) => (Ok (mkSpecs mat vt (truth wp) (truth uv) sz), c3)
      end
    end
  end.

(** What holds of the cache in every state: entries are only ever
    stored by [_compile], so the entry of a [str] pattern under the flags
    [0] or [re.I] holds what compiling that pattern under those flags
    gives. *)
Definition cache_consistent (c : cache) : Prop :=
  forall pattern fl co,
    List.In ((str_pattern, pattern, flags_value fl), co) c ->
    forall p, compile pattern = Ok p -> co = mkCompiled p fl.

(** * The vocabulary of the properties *)

(** ** What a pattern denotes

    [lang fl r w]: the word [w] is matched in full by [r] (under [re.I]
    when [fl] holds).  This is the reading of a pattern as a set of
    words, without any order among the alternatives. *)
Inductive lang (fl : bool) : regex -> str -> Prop :=
| L_Empty : lang fl Empty []
| L_Literal p ch : literal_test fl p ch = true -> lang fl (Literal p) [ch]
| L_Category k ch : category_test k ch = true -> lang fl (Category k) [ch]
| L_InSet items ch :
    existsb (fun p => literal_test fl p ch) items = true ->
    lang fl (InSet items) [ch]
| L_Seq r1 r2 w1 w2 :
    lang fl r1 w1 -> lang fl r2 w2 -> lang fl (Seq r1 r2) (w1 ++ w2)
| L_Branch_l r1 r2 w : lang fl r1 w -> lang fl (Branch r1 r2) w
| L_Branch_r r1 r2 w : lang fl r2 w -> lang fl (Branch r1 r2) w
| L_Star_nil r : lang fl (Star r) []
| L_Star_app r w1 w2 :
    lang fl r w1 -> lang fl (Star r) w2 -> lang fl (Star r) (w1 ++ w2)
| L_Plus r w1 w2 :
    lang fl r w1 -> lang fl (Star r) w2 -> lang fl (Plus r) (w1 ++ w2)
| L_Subpattern i r w : lang fl r w -> lang fl (Subpattern i r) w.

(** [occurs L text]: some contiguous run of [text] is a word of [L]. *)
Definition occurs (L : str -> Prop) (text : str) : Prop :=
  exists pre w post, text = pre ++ w ++ post /\ L w.

(** ** The three patterns of the program, parsed *)

(** [word w k]: the literals of [w] in sequence, then [k]. *)
Definition word (w : string) (k : regex) : regex :=
  fold_right (fun ch r => Seq (Literal ch) r) k (py w).

Definition spaces : regex := Star (Category CATEGORY_SPACE).
Definition digits : regex := Plus (Category CATEGORY_DIGIT).

(** The characters between the brackets of the size pattern. *)
Definition separator_class : list cp := [0x78; 0x221A; 0xF3]%N.

Definition size_regex : regex :=
  Seq (Subpattern 1 (Seq digits Empty))
   (Seq spaces (word "cm"
     (Seq spaces (Seq (InSet separator_class)
       (Seq spaces (Seq (Subpattern 2 (Seq digits Empty))
         (Seq spaces (word "cm" Empty)))))))).

Definition waterproof_regex : regex :=
  Branch (word "water" (Seq spaces (word "proof" Empty)))
         (word "rain" (Seq spaces (word "proof" Empty))).

Definition uv_regex : regex :=
  Branch (word "UV" Empty)
   (Branch (word "ultraviolet" Empty)
           (word "sun" (Seq spaces (word "protect" Empty)))).

(** A cache that another user of [re] has filled: a [bytes] pattern, and
    the UV pattern under [re.I]. *)
Definition other_cache : cache :=
  [ ((bytes_pattern, [97; 43]%N, 0%N),
     mkCompiled (mkPattern (Seq (Plus (Literal 97%N)) Empty) 0) false);
    ((str_pattern, uv_pattern, 2%N),
     mkCompiled (mkPattern uv_regex 0) true) ].

(** ** Keywords in any letter case *)

(** The ASCII letters without their case. *)
Definition ascii_fold (c : cp) : cp :=
  if is_ascii_upper c then (c + 32)%N else c.

(** [contains_ci kw text]: the lower-case ASCII keyword [kw] occurs in
    [text] with each letter in either case. *)
Definition contains_ci (kw text : str) : Prop :=
  exists pre w post, text = pre ++ w ++ post /\ List.map ascii_fold w = kw.

(** [ci_word kw w]: [w] is the keyword [kw], letter by letter, up to the
    case-insensitive comparison of [re.I]. *)
Definition ci_word (kw w : str) : Prop :=
  Forall2 (fun p ch => eq_ignorecase p ch = true) kw w.



(** ** Runs of one character class *)

(** Runs of digits and runs of white space. *)
Definition is_digits (w : str) : bool := forallb isdigit w.
Definition is_spaces (w : str) : bool := forallb isspace w.

(** Text without any digit. *)
Definition no_digit (w : str) : bool := forallb (fun ch => negb (isdigit ch)) w.

(** The text stops being of class [k] at [rest]. *)
Definition stops (k : category) (rest : str) : Prop :=
  match rest with
  | [] => True
  | ch :: _ => category_test k ch = false
  end.

(** The white space characters, one by one. *)
Definition white_space : list cp :=
  [0x09; 0x0A; 0x0B; 0x0C; 0x0D; 0x1C; 0x1D; 0x1E; 0x1F; 0x20; 0x85; 0xA0;
   0x1680; 0x2000; 0x2001; 0x2002; 0x2003; 0x2004; 0x2005; 0x2006; 0x2007;
   0x2008; 0x2009; 0x200A; 0x2028; 0x2029; 0x202F; 0x205F; 0x3000]%N.

(** Patterns without a capturing group. *)
Fixpoint groupless (r : regex) : bool :=
  match r with
  | Empty | Literal _ | Category _ | InSet _ => true
  | Seq r1 r2 | Branch r1 r2 => groupless r1 && groupless r2
  | Star r1 | Plus r1 => groupless r1
  | Subpattern _ _ => false
  end.

(** * Properties *)

Create HintDb re.
#[local] Hint Constructors lang : re.

(** ** Literals of the source, decoded *)

Example py_ascii : py "cm x" = [99; 109; 32; 120]%N.
Proof. reflexivity. Qed.

Example py_separators : py "[x√ó]" = [0x5B; 0x78; 0x221A; 0xF3; 0x5D]%N.
Proof. reflexivity. Qed.

(** ** The matcher finds the words of the pattern, and only those *)

Section MatcherCorrect.

Variable fl : bool.

Lemma step_inv (test : cp -> bool) s c st :
  List.In st (step test s c) ->
  exists ch, s = ch :: fst st /\ test ch = true /\ snd st = c.
Proof.
  destruct s as [|ch s']; simpl; [tauto|].
  destruct (test ch) eqn:E; simpl; [|tauto].
  intros [<-|[]]. exists ch. auto.
Qed.

(** Soundness of the loop, given soundness of its body. *)
Lemma loop_sound r :
  (forall s c st, List.In st (run fl r s c) ->
                  exists w, s = w ++ fst st /\ lang fl r w) ->
  forall n s c st, List.In st (loop (run fl r) n s c) ->
                   exists w, s = w ++ fst st /\ lang fl (Star r) w.
Proof.
  intros Hbody n. induction n as [|n IH]; simpl; intros s c st Hin.
  - destruct Hin as [<-|[]]. exists []. auto with re.
  - apply in_app_or in Hin. destruct Hin as [Hin|[<-|[]]].
    + apply in_flat_map in Hin. destruct Hin as [st1 [H1 H2]].
      destruct (List.length (fst st1) <? List.length s)%nat; [|destruct H2].
      apply IH in H2. destruct H2 as [w2 [E2 L2]].
      apply Hbody in H1. destruct H1 as [w1 [E1 L1]].
      exists (w1 ++ w2). split; [|auto with re].
      now rewrite <- app_assoc, <- E2.
    + exists []. auto with re.
Qed.

(** Every success of the matcher reads a word of the pattern. *)
Lemma run_sound r :
  forall s c st, List.In st (run fl r s c) ->
                 exists w, s = w ++ fst st /\ lang fl r w.
Proof.
  induction r as [|p|k|items|r1 IH1 r2 IH2|r1 IH1 r2 IH2|r1 IH1|r1 IH1|i r1 IH1];
    simpl; intros s c st Hin.
  - destruct Hin as [<-|[]]. exists []. auto with re.
  - apply step_inv in Hin. destruct Hin as [ch [-> [E _]]].
    exists [ch]. auto with re.
  - apply step_inv in Hin. destruct Hin as [ch [-> [E _]]].
    exists [ch]. auto with re.
  - apply step_inv in Hin. destruct Hin as [ch [-> [E _]]].
    exists [ch]. auto with re.
  - apply in_flat_map in Hin. destruct Hin as [st1 [H1 H2]].
    apply IH1 in H1. destruct H1 as [w1 [E1 L1]].
    apply IH2 in H2. destruct H2 as [w2 [E2 L2]].
    exists (w1 ++ w2). split; [|auto with re].
    now rewrite <- app_assoc, <- E2.
  - apply in_app_or in Hin. destruct Hin as [Hin|Hin].
    + apply IH1 in Hin. destruct Hin as [w [E L]]. exists w. auto with re.
    + apply IH2 in Hin. destruct Hin as [w [E L]]. exists w. auto with re.
  - eapply loop_sound; eauto.
  - apply in_flat_map in Hin. destruct Hin as [st1 [H1 H2]].
    apply IH1 in H1. destruct H1 as [w1 [E1 L1]].
    apply (loop_sound IH1) in H2. destruct H2 as [w2 [E2 L2]].
    exists (w1 ++ w2). split; [|auto with re].
    now rewrite <- app_assoc, <- E2.
  - apply in_map_iff in Hin. destruct Hin as [st1 [<- H1]]. simpl.
    apply IH1 in H1. destruct H1 as [w [E L]]. exists w. auto with re.
Qed.

(** Completeness of the loop: the fuel [n] never runs short, because
    every round that counts shortens the text. *)
Lemma loop_complete r :
  (forall w, lang fl r w ->
             forall s' c, exists c', List.In (s', c') (run fl r (w ++ s') c)) ->
  forall w, lang fl (Star r) w ->
  forall n s' c, (List.length (w ++ s') <= n)%nat ->
                 exists c', List.In (s', c') (loop (run fl r) n (w ++ s') c).
Proof.
  intros Hbody w Hw. remember (Star r) as sr eqn:Esr.
  induction Hw as [| | | | | | | r0 | r0 w1 w2 H1 _ H2 IH2 | |];
    try discriminate; injection Esr as ->; intros n s' c Hn.
  - exists c. destruct n; simpl; [now left|].
    apply in_or_app. right. now left.
  - destruct w1 as [|a w1].
    + simpl. apply IH2; auto.
    + rewrite <- app_assoc in Hn. rewrite <- app_assoc.
      destruct n as [|n]; [simpl in Hn; lia|].
      destruct (Hbody _ H1 (w2 ++ s') c) as [c1 Hc1].
      destruct (IH2 eq_refl n s' c1) as [c' Hc'].
      { simpl in Hn. rewrite !length_app in *. lia. }
      exists c'. cbn [loop]. apply in_or_app. left.
      apply in_flat_map. exists (w2 ++ s', c1). split; [exact Hc1|].
      cbn [fst snd].
      replace (List.length (w2 ++ s') <? List.length ((a :: w1) ++ w2 ++ s'))%nat
        with true; [exact Hc'|].
      symmetry. apply Nat.ltb_lt. rewrite !length_app. simpl. lia.
Qed.

(** Every word of the pattern at the head of the text is found. *)
Lemma run_complete r w :
  lang fl r w ->
  forall s' c, exists c', List.In (s', c') (run fl r (w ++ s') c).
Proof.
  revert w.
  induction r as [|p|k|items|r1 IH1 r2 IH2|r1 IH1 r2 IH2|r1 IH1|r1 IH1|i r1 IH1];
    intros w Hw s' c.
  - inversion Hw; subst. exists c. now left.
  - inversion Hw as [|? ? E| | | | | | | | |]; subst. exists c. simpl.
    rewrite E. now left.
  - inversion Hw as [| |? ? E| | | | | | | |]; subst. exists c. simpl.
    rewrite E. now left.
  - inversion Hw as [| | |? ? E| | | | | | |]; subst. exists c. simpl.
    rewrite E. now left.
  - inversion Hw as [| | | |? ? w1 w2 L1 L2| | | | | |]; subst.
    destruct (IH1 _ L1 (w2 ++ s') c) as [c1 Hc1].
    destruct (IH2 _ L2 s' c1) as [c2 Hc2].
    exists c2. simpl. apply in_flat_map. exists (w2 ++ s', c1).
    rewrite <- app_assoc. auto.
  - inversion Hw as [| | | | |? ? ? L1|? ? ? L2| | | |]; subst.
    + destruct (IH1 _ L1 s' c) as [c1 Hc1]. exists c1.
      simpl. apply in_or_app. auto.
    + destruct (IH2 _ L2 s' c) as [c1 Hc1]. exists c1.
      simpl. apply in_or_app. auto.
  - simpl. apply loop_complete; auto.
  - inversion Hw as [| | | | | | | | |? w1 w2 L1 L2|]; subst.
    destruct (IH1 _ L1 (w2 ++ s') c) as [c1 Hc1].
    destruct (loop_complete IH1 L2 (n := List.length (w2 ++ s')) s' c1) as [c2 Hc2];
      [lia|].
    exists c2. simpl. apply in_flat_map. exists (w2 ++ s', c1).
    rewrite <- app_assoc. auto.
  - inversion Hw as [| | | | | | | | | |? ? ? L1]; subst.
    destruct (IH1 _ L1 s' c) as [c1 Hc1].
    eexists. simpl. apply in_map_iff. exists (s', c1). split; [reflexivity|exact Hc1].
Qed.

Lemma scan_unfold pat s pos :
  scan fl pat s pos =
  match run fl (p_regex pat) s [] with
  | (s', c) :: _ => Some (mkMatch pos (consumed s s') c (p_groups pat))
  | [] => match s with
          | [] => None
          | _ :: s1 => scan fl pat s1 (S pos)
          end
  end.
Proof. destruct s; reflexivity. Qed.

(** [scan] succeeds exactly on the texts in which a word of the pattern
    occurs. *)
Lemma scan_complete pat text :
  occurs (lang fl (p_regex pat)) text ->
  forall pos, truth (scan fl pat text pos) = true.
Proof.
  intros [pre [w [post [-> Hw]]]].
  induction pre as [|a pre IH]; intros pos; rewrite scan_unfold.
  - simpl app. destruct (run_complete Hw post []) as [c' Hc'].
    destruct (run fl (p_regex pat) _ []) as [|[s1 c1] l]; [destruct Hc'|reflexivity].
  - simpl app.
    destruct (run fl (p_regex pat) _ []) as [|[s1 c1] l]; [|reflexivity].
    apply IH.
Qed.

Lemma scan_sound pat text :
  forall pos, truth (scan fl pat text pos) = true ->
              occurs (lang fl (p_regex pat)) text.
Proof.
  induction text as [|a text IH]; intros pos; simpl scan.
  - destruct (run fl (p_regex pat) [] []) as [|[s1 c1] l] eqn:E; [discriminate|].
    intros _. destruct (@run_sound (p_regex pat) [] [] (s1, c1)) as [w [Ew Lw]].
    { rewrite E. now left. }
    exists [], w, s1. auto.
  - destruct (run fl (p_regex pat) (a :: text) []) as [|[s1 c1] l] eqn:E.
    + intros H. apply IH in H. destruct H as [pre [w [post [-> Lw]]]].
      exists (a :: pre), w, post. auto.
    + intros _.
      destruct (@run_sound (p_regex pat) (a :: text) [] (s1, c1)) as [w [Ew Lw]].
      { rewrite E. now left. }
      exists [], w, s1. auto.
Qed.

Lemma scan_ngroups pat text :
  forall pos m, scan fl pat text pos = Some m -> m_ngroups m = p_groups pat.
Proof.
  induction text as [|a text IH]; intros pos m; simpl scan;
    destruct (run fl (p_regex pat) _ []) as [|[s1 c1] l];
    try discriminate; try (intros [= <-]; reflexivity).
  apply IH.
Qed.

End MatcherCorrect.

Lemma scan_iff fl pat text pos :
  truth (scan fl pat text pos) = true <-> occurs (lang fl (p_regex pat)) text.
Proof. split; [apply scan_sound | intros; now apply scan_complete]. Qed.

(** ** The three patterns of the program compile *)

Lemma size_pattern_compiles :
  compile size_pattern = Ok (mkPattern size_regex 2).
Proof. reflexivity. Qed.

Lemma waterproof_pattern_compiles :
  compile waterproof_pattern = Ok (mkPattern waterproof_regex 0).
Proof. reflexivity. Qed.

Lemma uv_pattern_compiles :
  compile uv_pattern = Ok (mkPattern uv_regex 0).
Proof. reflexivity. Qed.

(** ** The size extractor never raises *)

Lemma extract_size_total text : exists sz, _extract_size text = Ok sz.
Proof.
  unfold _extract_size, search. rewrite size_pattern_compiles. simpl bind.
  destruct (scan false _ text 0) as [m|] eqn:E; [|eauto].
  apply scan_ngroups in E. simpl in E.
  unfold group. rewrite E. simpl. eauto.
Qed.

Lemma extract_cover_specs_eq description :
  exists sz,
    _extract_size description = Ok sz /\
    _extract_cover_specs description =
    Ok (mkSpecs (_detect_material description)
                (_detect_vehicle_type description)
                (truth (scan true (mkPattern waterproof_regex 0) description 0))
                (truth (scan true (mkPattern uv_regex 0) description 0))
                sz).
Proof.
  destruct (extract_size_total description) as [sz Hsz].
  exists sz. split; [exact Hsz|].
  unfold _extract_cover_specs, search.
  rewrite waterproof_pattern_compiles, uv_pattern_compiles. simpl bind.
  rewrite Hsz. reflexivity.
Qed.

(** C3. Totality: on every description the extraction returns a record;
    neither the compilation of a pattern nor the access to a group of a
    match raises, and every function involved is defined by structural
    recursion, hence terminates. *)
Theorem extract_cover_specs_total :
  forall description : str,
    exists record : specs, _extract_cover_specs description = Ok record.
Proof.
  intros description.
  destruct (extract_cover_specs_eq description) as [sz [_ E]].
  rewrite E. eauto.
Qed.

(** C6. The end-to-end scenario. *)
Theorem end_to_end_scenario :
  _extract_cover_specs
    (py "Waterproof polyester car cover, universal fit, UV protection, 200cm x 180cm")
  = Ok {| material := Some (py "polyester");
          vehicle_type := Some (py "universal");
          is_waterproof := true;
          has_uv_protection := true;
          size := Some (py "200x180cm") |}.
Proof. vm_compute. reflexivity. Qed.

(** C7. The empty description: nothing found, both flags false. *)
Theorem empty_description :
  _extract_cover_specs (py "")
  = Ok {| material := None;
          vehicle_type := None;
          is_waterproof := false;
          has_uv_protection := false;
          size := None |}.
Proof. vm_compute. reflexivity. Qed.

(** ** Keywords found after lowering *)

Local Open Scope N_scope.

Lemma ascii_fold_cases ch k :
  ascii_fold ch = k -> is_ascii_lower k = true ->
  ch = k \/ (ch = k - 32 /\ is_ascii_upper ch = true).
Proof.
  unfold ascii_fold, is_ascii_lower.
  destruct (is_ascii_upper ch) eqn:U; intros <- L; [right|left; reflexivity].
  split; [lia|reflexivity].
Qed.

Lemma lower_cp_letter ch k :
  ascii_fold ch = k -> is_ascii_lower k = true -> lower_cp ch = [k].
Proof.
  intros F L. destruct (@ascii_fold_cases ch k F L) as [->|[-> U]].
  - unfold lower_cp, is_ascii_upper. unfold is_ascii_lower in L.
    apply andb_true_iff in L. destruct L as [L1 L2].
    apply N.leb_le in L1, L2.
    replace (k <=? 90) with false by (symmetry; apply N.leb_gt; lia).
    rewrite andb_false_r.
    replace (k =? 0x130) with false by (symmetry; apply N.eqb_neq; lia).
    replace (k =? 0x212A) with false by (symmetry; apply N.eqb_neq; lia).
    reflexivity.
  - unfold lower_cp. rewrite U. f_equal.
    unfold is_ascii_lower in L. apply andb_true_iff in L. destruct L as [L1 _].
    apply N.leb_le in L1. lia.
Qed.

(** Lowering a keyword written in any case gives the keyword. *)
Lemma lower_caseless kw :
  Forall (fun k => is_ascii_lower k = true) kw ->
  forall w, List.map ascii_fold w = kw -> lower w = kw.
Proof.
  induction 1 as [|k kw Hk _ IH]; intros [|ch w]; simpl; try discriminate.
  - reflexivity.
  - intros [= F1 F2].
    rewrite (@lower_cp_letter ch k F1 Hk), (IH _ F2). reflexivity.
Qed.

Lemma lower_app a b : lower (a ++ b) = lower a ++ lower b.
Proof. apply flat_map_app. Qed.

Lemma startswith_app kw post : startswith kw (kw ++ post) = true.
Proof.
  induction kw as [|k kw IH]; simpl; [reflexivity|].
  now rewrite N.eqb_refl, IH.
Qed.

Lemma contains_unfold kw text :
  contains kw text =
  startswith kw text || match text with [] => false | _ :: t => contains kw t end.
Proof. destruct text; reflexivity. Qed.

Lemma contains_app kw pre post : contains kw (pre ++ kw ++ post) = true.
Proof.
  induction pre as [|a pre IH].
  - simpl app. rewrite contains_unfold, startswith_app. reflexivity.
  - simpl app. rewrite contains_unfold, IH. apply orb_true_r.
Qed.

(** A keyword in any case in the text is found in the lowered text. *)
Lemma contains_lower kw text :
  Forall (fun k => is_ascii_lower k = true) kw ->
  contains_ci kw text -> contains kw (lower text) = true.
Proof.
  intros Hkw [pre [w [post [-> F]]]].
  rewrite !lower_app, (@lower_caseless kw Hkw w F). apply contains_app.
Qed.

Lemma poly_lowercase : Forall (fun k => is_ascii_lower k = true) (py "poly").
Proof. repeat constructor. Qed.

(** Whatever else the text holds, [poly] in any case settles the
    material. *)
Lemma material_poly text :
  contains_ci (py "poly") text -> _detect_material text = Some (py "polyester").
Proof.
  intros H. apply (@contains_lower (py "poly") text poly_lowercase) in H.
  unfold _detect_material, materials. cbn [first_label existsb].
  rewrite H, orb_true_r. reflexivity.
Qed.

(** C5. Precedence: a text with both [poly] and [nylon] is classified
    polyester, the first label of the table. *)
Theorem material_precedence :
  forall text : str,
    contains_ci (py "poly") text -> contains_ci (py "nylon") text ->
    _detect_material text = Some (py "polyester").
Proof. intros text Hpoly _. now apply material_poly. Qed.

Lemma material_precedence_witness :
  _detect_material (py "Nylon lined POLY cover") = Some (py "polyester").
Proof.
  apply (@material_precedence (py "Nylon lined POLY cover")).
  - exists (py "Nylon lined "), (py "POLY"), (py " cover").
    split; vm_compute; reflexivity.
  - exists (py ""), (py "Nylon"), (py " lined POLY cover").
    split; vm_compute; reflexivity.
Defined.

(** ** The keyword [PVC] *)

(** Lowered text has no ASCII capital. *)
Lemma lower_no_capital text :
  Forall (fun c => is_ascii_upper c = false) (lower text).
Proof.
  induction text as [|ch text IH]; simpl; [constructor|].
  apply Forall_app. split; [|exact IH].
  unfold lower_cp. destruct (is_ascii_upper ch) eqn:U.
  - repeat constructor. unfold is_ascii_upper in *.
    apply andb_true_iff in U. destruct U as [U1 U2]. apply N.leb_le in U1, U2.
    apply andb_false_iff. right. apply N.leb_gt. lia.
  - destruct (ch =? 0x130); [repeat constructor|].
    destruct (ch =? 0x212A); [repeat constructor|].
    repeat constructor. exact U.
Qed.

Lemma startswith_head k kw text :
  startswith (k :: kw) text = true -> exists t, text = k :: t.
Proof.
  destruct text as [|c t]; simpl; [discriminate|].
  intros H. apply andb_true_iff in H. destruct H as [H _].
  apply N.eqb_eq in H. subst. eauto.
Qed.

Lemma contains_head_in k kw text :
  contains (k :: kw) text = true -> List.In k text.
Proof.
  induction text as [|c t IH]; rewrite contains_unfold; intros H;
    apply orb_true_iff in H; destruct H as [H|H]; try discriminate.
  - apply startswith_head in H. destruct H as [t' [= -> _]]. now left.
  - right. auto.
Qed.

(** The keyword [PVC] of the material table is compared with lowered
    text and is found in no text at all. *)
Lemma PVC_keyword_never_found text : contains (py "PVC") (lower text) = false.
Proof.
  destruct (contains (py "PVC") (lower text)) eqn:E; [|reflexivity].
  apply contains_head_in in E.
  pose proof (lower_no_capital text) as F.
  rewrite Forall_forall in F. apply F in E. discriminate.
Qed.

(** C2. On the texts [PVC], [pvc] and [Pvc] the material classifier finds
    nothing: the table entry [PVC] is written in capitals and is compared
    with the lowered text. *)
Theorem material_PVC_not_detected :
  _detect_material (py "PVC") = None /\
  _detect_material (py "pvc") = None /\
  _detect_material (py "Pvc") = None.
Proof. repeat split; vm_compute; reflexivity. Qed.

(** The other keyword of the label does work. *)
Example material_vinyl : _detect_material (py "Vinyl cover") = Some (py "PVC").
Proof. vm_compute. reflexivity. Qed.

(** C1. On [150CM X 120CM] the size extractor finds nothing: the pattern
    is searched without [re.I], so only [cm] and [x] in lower case are
    read. *)
Theorem size_uppercase_not_parsed :
  _extract_size (py "150CM X 120CM") = Ok None /\
  _extract_size (py "150cm X 120cm") = Ok None /\
  _extract_size (py "150cm x 120cm") = Ok (Some (py "150x120cm")).
Proof. repeat split; vm_compute; reflexivity. Qed.

(** ** Case-insensitive literals *)

Lemma sre_lower_letter ch k :
  ascii_fold ch = k -> is_ascii_lower k = true -> sre_lower ch = k.
Proof.
  intros F L. pose proof (@lower_cp_letter ch k F L) as E.
  unfold lower_cp in E. unfold sre_lower.
  destruct (is_ascii_upper ch); [congruence|].
  destruct (ch =? 0x130) eqn:E1.
  - apply N.eqb_eq in E1. subst ch. discriminate.
  - destruct (ch =? 0x212A); congruence.
Qed.

Lemma eq_ignorecase_letter p ch k :
  ascii_fold p = k -> ascii_fold ch = k -> is_ascii_lower k = true ->
  eq_ignorecase p ch = true.
Proof.
  intros Fp Fch L. unfold eq_ignorecase.
  rewrite (@sre_lower_letter p k Fp L), (@sre_lower_letter ch k Fch L).
  simpl. now rewrite N.eqb_refl.
Qed.

(** A keyword of ASCII letters, read with [re.I], matches itself in any
    letter case. *)
Lemma lang_caseless kw :
  Forall (fun p => is_ascii_lower (ascii_fold p) = true) kw ->
  forall w r w',
    List.map ascii_fold w = List.map ascii_fold kw ->
    lang true r w' ->
    lang true (fold_right (fun ch k => Seq (Literal ch) k) r kw) (w ++ w').
Proof.
  induction 1 as [|p kw Hp _ IH]; intros [|ch w] r w'; simpl;
    try discriminate; intros E Hr; [exact Hr|].
  injection E as E1 E2.
  change (ch :: w ++ w') with ([ch] ++ (w ++ w')).
  constructor; [|now apply IH].
  constructor. simpl. now apply (@eq_ignorecase_letter p ch (ascii_fold p)).
Qed.

(** ** The two flags *)

(** C10. Any [uv], in either case of each letter and anywhere in the
    text (inside a word as well), sets the UV flag. *)
Theorem uv_flag_substring :
  forall text : str,
    contains_ci (py "uv") text ->
    exists record : specs,
      _extract_cover_specs text = Ok record /\
      has_uv_protection record = true.
Proof.
  intros text [pre [w [post [-> F]]]].
  destruct (extract_cover_specs_eq (pre ++ w ++ post)) as [sz [_ E]].
  rewrite E. eexists. split; [reflexivity|]. simpl.
  apply scan_complete. exists pre, w, post. split; [reflexivity|].
  apply L_Branch_l. rewrite <- (app_nil_r w).
  apply (@lang_caseless (py "UV")); [repeat constructor|exact F|constructor].
Qed.

Lemma uv_flag_substring_witness :
  exists record : specs,
    _extract_cover_specs (py "louvre door") = Ok record /\
    has_uv_protection record = true.
Proof.
  apply (@uv_flag_substring (py "louvre door")).
  exists (py "lo"), (py "uv"), (py "re door"). split; vm_compute; reflexivity.
Defined.



(** ** The first success of the matcher

    [search] uses the first element of the list of successes; the lemmas
    of this section compute it through a sequence whose greedy loops run
    over one character class each. *)

Section FirstSuccess.

Variable fl : bool.

Lemma hd_error_app {A : Type} (l l' : list A) x :
  hd_error l = Some x -> hd_error (l ++ l') = Some x.
Proof. destruct l; simpl; [discriminate|auto]. Qed.

Lemma first_seq r1 r2 s c st1 st2 :
  hd_error (run fl r1 s c) = Some st1 ->
  hd_error (run fl r2 (fst st1) (snd st1)) = Some st2 ->
  hd_error (run fl (Seq r1 r2) s c) = Some st2.
Proof.
  simpl. destruct (run fl r1 s c) as [|x l]; simpl; [discriminate|].
  intros [= ->] H2. now apply hd_error_app.
Qed.

Lemma first_subpattern i r s c st :
  hd_error (run fl r s c) = Some st ->
  hd_error (run fl (Subpattern i r) s c)
  = Some (fst st, (i, consumed s (fst st)) :: snd st).
Proof.
  simpl. destruct (run fl r s c) as [|x l]; simpl; [discriminate|].
  now intros [= ->].
Qed.

Lemma first_empty s c : hd_error (run fl Empty s c) = Some (s, c).
Proof. reflexivity. Qed.

Lemma first_literal p ch s c :
  literal_test fl p ch = true ->
  hd_error (run fl (Literal p) (ch :: s) c) = Some (s, c).
Proof. intros E. simpl. now rewrite E. Qed.

Lemma first_set items ch s c :
  existsb (fun p => literal_test fl p ch) items = true ->
  hd_error (run fl (InSet items) (ch :: s) c) = Some (s, c).
Proof. intros E. simpl. now rewrite E. Qed.

Lemma run_star_category k ch s c :
  run fl (Star (Category k)) (ch :: s) c =
  if category_test k ch
  then run fl (Star (Category k)) s c ++ [(ch :: s, c)]
  else [(ch :: s, c)].
Proof.
  simpl. destruct (category_test k ch); simpl; [|reflexivity].
  replace (List.length s <? S (List.length s))%nat with true
    by (symmetry; apply Nat.ltb_lt; lia).
  now rewrite app_nil_r.
Qed.

Lemma run_plus_category k ch s c :
  run fl (Plus (Category k)) (ch :: s) c =
  if category_test k ch then run fl (Star (Category k)) s c else [].
Proof.
  simpl. destruct (category_test k ch); simpl; [|reflexivity].
  apply app_nil_r.
Qed.

(** A greedy [*] over a class reads the whole run of that class first. *)
Lemma first_star_category k ws rest c :
  Forall (fun ch => category_test k ch = true) ws -> stops k rest ->
  hd_error (run fl (Star (Category k)) (ws ++ rest) c) = Some (rest, c).
Proof.
  intros Hws Hrest. induction Hws as [|ch ws Hch _ IH].
  - destruct rest as [|ch rest]; [reflexivity|].
    simpl app. simpl in Hrest. now rewrite run_star_category, Hrest.
  - simpl app. rewrite run_star_category, Hch. now apply hd_error_app.
Qed.

Lemma first_plus_category k ws rest c :
  ws <> [] ->
  Forall (fun ch => category_test k ch = true) ws -> stops k rest ->
  hd_error (run fl (Plus (Category k)) (ws ++ rest) c) = Some (rest, c).
Proof.
  intros Hne Hws Hrest. destruct Hws as [|ch ws Hch Hws]; [congruence|].
  simpl app. rewrite run_plus_category, Hch.
  now apply first_star_category.
Qed.

Lemma scan_first pat s pos s' c :
  hd_error (run fl (p_regex pat) s []) = Some (s', c) ->
  scan fl pat s pos = Some (mkMatch pos (consumed s s') c (p_groups pat)).
Proof.
  rewrite scan_unfold.
  destruct (run fl (p_regex pat) s []) as [|[s1 c1] l]; simpl; [discriminate|].
  now intros [= -> ->].
Qed.

End FirstSuccess.

Lemma consumed_app (w s' : str) : consumed (w ++ s') s' = w.
Proof.
  unfold consumed. rewrite length_app.
  replace (List.length w + List.length s' - List.length s')%nat
    with (List.length w + 0)%nat by lia.
  rewrite firstn_app_2. simpl. apply app_nil_r.
Qed.

(** *** White space and digits do not overlap *)

Lemma isspace_white_space ch : isspace ch = true -> List.In ch white_space.
Proof.
  unfold isspace. rewrite !orb_true_iff, !andb_true_iff, !N.leb_le, !N.eqb_eq.
  intros H. simpl. lia.
Qed.

Lemma space_not_digit ch : isspace ch = true -> isdigit ch = false.
Proof.
  intros H. apply isspace_white_space in H.
  assert (F : forallb (fun c => negb (isdigit c)) white_space = true)
    by (vm_compute; reflexivity).
  rewrite forallb_forall in F. apply F in H.
  now apply negb_true_iff in H.
Qed.

Lemma digit_not_space ch : isdigit ch = true -> isspace ch = false.
Proof.
  intros D. destruct (isspace ch) eqn:S; [|reflexivity].
  apply space_not_digit in S. congruence.
Qed.

(** ** The size pattern on well-formed sizes *)

Lemma is_digits_Forall w :
  is_digits w = true ->
  Forall (fun ch => category_test CATEGORY_DIGIT ch = true) w.
Proof. intros D. apply Forall_forall. now apply forallb_forall. Qed.

Lemma is_spaces_Forall w :
  is_spaces w = true ->
  Forall (fun ch => category_test CATEGORY_SPACE ch = true) w.
Proof. intros D. apply Forall_forall. now apply forallb_forall. Qed.

Lemma py_cm : py "cm" = [99; 109].
Proof. reflexivity. Qed.

Lemma stops_digit_at_unit ws rest :
  is_spaces ws = true -> stops CATEGORY_DIGIT (ws ++ 99 :: rest).
Proof.
  intros S. destruct ws as [|ch ws']; simpl; [reflexivity|].
  simpl in S. apply andb_true_iff in S. now apply space_not_digit.
Qed.

Lemma stops_space_at_digits H rest :
  H <> [] -> is_digits H = true -> stops CATEGORY_SPACE (H ++ rest).
Proof.
  intros Hne D. destruct H as [|ch H']; [congruence|]. simpl.
  simpl in D. apply andb_true_iff in D. now apply digit_not_space.
Qed.

Lemma separator_not_space sep :
  List.In sep separator_class -> isspace sep = false.
Proof. intros [<-|[<-|[<-|[]]]]; reflexivity. Qed.

Lemma separator_not_digit sep :
  List.In sep separator_class -> isdigit sep = false.
Proof. intros [<-|[<-|[<-|[]]]]; reflexivity. Qed.

Lemma separator_test sep :
  List.In sep separator_class ->
  existsb (fun p => literal_test false p sep) separator_class = true.
Proof. intros [<-|[<-|[<-|[]]]]; reflexivity. Qed.

(** The first success of the size pattern on a text that begins with a
    size: digits, [cm], a separator, digits, [cm], with any white space
    in the five places where the pattern allows it. *)
Lemma size_first W ws0 ws1 sep ws2 H ws3 tail c :
  W <> [] -> H <> [] -> is_digits W = true -> is_digits H = true ->
  is_spaces ws0 = true -> is_spaces ws1 = true ->
  is_spaces ws2 = true -> is_spaces ws3 = true ->
  List.In sep separator_class ->
  hd_error (run false size_regex
              (W ++ ws0 ++ [99; 109] ++ ws1 ++ sep :: ws2 ++ H ++ ws3
                 ++ [99; 109] ++ tail) c)
  = Some (tail, (2%nat, H) :: (1%nat, W) :: c).
Proof.
  intros HW HH DW DH S0 S1 S2 S3 Hsep.
  unfold size_regex, word, spaces, digits. rewrite py_cm. cbn [fold_right].
  eapply first_seq.
  { apply first_subpattern. eapply first_seq.
    - apply first_plus_category; [exact HW|now apply is_digits_Forall|].
      now apply stops_digit_at_unit.
    - apply first_empty. }
  cbn [fst snd]. rewrite consumed_app.
  eapply first_seq.
  { apply first_star_category; [now apply is_spaces_Forall|reflexivity]. }
  cbn [fst snd]. simpl app.
  eapply first_seq; [now apply first_literal|]. cbn [fst snd].
  eapply first_seq; [now apply first_literal|]. cbn [fst snd].
  eapply first_seq.
  { apply first_star_category; [now apply is_spaces_Forall|]. simpl.
    now apply separator_not_space. }
  cbn [fst snd].
  eapply first_seq; [apply first_set; now apply separator_test|].
  cbn [fst snd].
  eapply first_seq.
  { apply first_star_category; [now apply is_spaces_Forall|].
    now apply stops_space_at_digits. }
  cbn [fst snd].
  eapply first_seq.
  { apply first_subpattern. eapply first_seq.
    - apply first_plus_category; [exact HH|now apply is_digits_Forall|].
      now apply stops_digit_at_unit.
    - apply first_empty. }
  cbn [fst snd]. rewrite consumed_app.
  eapply first_seq.
  { apply first_star_category; [now apply is_spaces_Forall|reflexivity]. }
  cbn [fst snd]. simpl app.
  eapply first_seq; [now apply first_literal|]. cbn [fst snd].
  eapply first_seq; [now apply first_literal|]. cbn [fst snd].
  apply first_empty.
Qed.

(** What [_extract_size] returns on such a text. *)
Lemma extract_size_shape W ws0 ws1 sep ws2 H ws3 tail :
  W <> [] -> H <> [] -> is_digits W = true -> is_digits H = true ->
  is_spaces ws0 = true -> is_spaces ws1 = true ->
  is_spaces ws2 = true -> is_spaces ws3 = true ->
  List.In sep separator_class ->
  _extract_size (W ++ ws0 ++ py "cm" ++ ws1 ++ sep :: ws2 ++ H ++ ws3
                   ++ py "cm" ++ tail)
  = Ok (Some (W ++ py "x" ++ H ++ py "cm")).
Proof.
  intros HW HH DW DH S0 S1 S2 S3 Hsep.
  unfold _extract_size, search. rewrite size_pattern_compiles. simpl bind.
  rewrite py_cm.
  erewrite scan_first;
    [|simpl p_regex; apply size_first; eassumption].
  reflexivity.
Qed.

(** *** Only the three characters of the class separate a size *)

Lemma lang_seq_inv fl r1 r2 w :
  lang fl (Seq r1 r2) w ->
  exists w1 w2, w = w1 ++ w2 /\ lang fl r1 w1 /\ lang fl r2 w2.
Proof.
  intros L. inversion L as [| | | |? ? w1 w2 L1 L2| | | | | |]; subst.
  exists w1, w2. auto.
Qed.

Lemma lang_set_inv items w :
  lang false (InSet items) w -> exists ch, w = [ch] /\ List.In ch items.
Proof.
  intros L. inversion L as [| | |? ch E| | | | | | |]; subst.
  exists ch. split; [reflexivity|].
  apply existsb_exists in E. destruct E as [p [Hp E]].
  simpl in E. apply N.eqb_eq in E. now subst.
Qed.

(** Every word of the size pattern holds a character of the class. *)
Lemma lang_size_separator w :
  lang false size_regex w ->
  exists ch, List.In ch separator_class /\ List.In ch w.
Proof.
  unfold size_regex, word. rewrite py_cm. cbn [fold_right]. intros L.
  apply lang_seq_inv in L. destruct L as [w1 [v1 [-> [_ L]]]].
  apply lang_seq_inv in L. destruct L as [w2 [v2 [-> [_ L]]]].
  apply lang_seq_inv in L. destruct L as [w3 [v3 [-> [_ L]]]].
  apply lang_seq_inv in L. destruct L as [w4 [v4 [-> [_ L]]]].
  apply lang_seq_inv in L. destruct L as [w5 [v5 [-> [_ L]]]].
  apply lang_seq_inv in L. destruct L as [w6 [v6 [-> [L _]]]].
  apply lang_set_inv in L. destruct L as [ch [-> Hch]].
  exists ch. split; [exact Hch|].
  rewrite !in_app_iff. simpl. tauto.
Qed.

Lemma extract_size_some text sz :
  _extract_size text = Ok (Some sz) -> occurs (lang false size_regex) text.
Proof.
  unfold _extract_size, search. rewrite size_pattern_compiles. simpl bind.
  destruct (scan false (mkPattern size_regex 2) text 0) as [m|] eqn:E;
    [|discriminate].
  intros _. apply (@scan_sound false (mkPattern size_regex 2) text 0).
  now rewrite E.
Qed.

Lemma digits_no_separator w ch :
  is_digits w = true -> List.In ch separator_class -> ~ List.In ch w.
Proof.
  intros D Hsep Hin. unfold is_digits in D. rewrite forallb_forall in D.
  apply D in Hin. apply separator_not_digit in Hsep. congruence.
Qed.

(** C9. The class between the brackets of the size pattern is the three
    characters [x], U+221A and U+00F3: between two sizes in [cm], those
    three separate, and no other character does; in particular the forms
    with U+221A or U+00F3 between two spaces are read as sizes. *)
Theorem size_separator_class :
  forall (W H : str) (sep : cp),
    W <> [] -> H <> [] -> is_digits W = true -> is_digits H = true ->
    (_extract_size (W ++ py "cm" ++ [sep] ++ H ++ py "cm")
       = Ok (Some (W ++ py "x" ++ H ++ py "cm"))
     <-> (sep = 0x78 \/ sep = 0x221A \/ sep = 0xF3))
    /\ _extract_size (W ++ py "cm √ " ++ H ++ py "cm")
       = Ok (Some (W ++ py "x" ++ H ++ py "cm"))
    /\ _extract_size (W ++ py "cm ó " ++ H ++ py "cm")
       = Ok (Some (W ++ py "x" ++ H ++ py "cm")).
Proof.
  intros W H sep HW HH DW DH. split; [split|split].
  - intros E. apply extract_size_some in E.
    destruct E as [pre [w [post [E L]]]].
    apply lang_size_separator in L. destruct L as [ch [Hsep Hin]].
    assert (Hin' : List.In ch (W ++ py "cm" ++ [sep] ++ H ++ py "cm")).
    { rewrite E. apply in_or_app. right. apply in_or_app. now left. }
    apply in_app_or in Hin'. destruct Hin' as [Hin'|Hin'].
    { exfalso. revert Hin'. now apply digits_no_separator. }
    apply in_app_or in Hin'. destruct Hin' as [Hin'|Hin'].
    { exfalso. destruct Hsep as [<-|[<-|[<-|[]]]];
        destruct Hin' as [Q|[Q|[]]]; discriminate Q. }
    apply in_app_or in Hin'. destruct Hin' as [Hin'|Hin'].
    { destruct Hin' as [->|[]]. destruct Hsep as [<-|[<-|[<-|[]]]]; auto. }
    apply in_app_or in Hin'. destruct Hin' as [Hin'|Hin'].
    { exfalso. revert Hin'. now apply digits_no_separator. }
    exfalso. destruct Hsep as [<-|[<-|[<-|[]]]];
      destruct Hin' as [Q|[Q|[]]]; discriminate Q.
  - intros Hsep.
    assert (Hin : List.In sep separator_class).
    { destruct Hsep as [-> | [-> | ->]]; simpl; auto. }
    exact (@extract_size_shape W [] [] sep [] H [] []
             HW HH DW DH eq_refl eq_refl eq_refl eq_refl Hin).
  - assert (Hin : List.In 0x221A separator_class) by (simpl; auto).
    exact (@extract_size_shape W [] [32] 0x221A [32] H [] []
             HW HH DW DH eq_refl eq_refl eq_refl eq_refl Hin).
  - assert (Hin : List.In 0xF3 separator_class) by (simpl; auto).
    exact (@extract_size_shape W [] [32] 0xF3 [32] H [] []
             HW HH DW DH eq_refl eq_refl eq_refl eq_refl Hin).
Qed.

Lemma size_separator_class_witness :
  (_extract_size (py "200" ++ py "cm" ++ [0x221A] ++ py "180" ++ py "cm")
     = Ok (Some (py "200" ++ py "x" ++ py "180" ++ py "cm"))
   <-> (0x221A = 0x78 \/ 0x221A = 0x221A \/ 0x221A = 0xF3))
  /\ _extract_size (py "200" ++ py "cm √ " ++ py "180" ++ py "cm")
     = Ok (Some (py "200" ++ py "x" ++ py "180" ++ py "cm"))
  /\ _extract_size (py "200" ++ py "cm ó " ++ py "180" ++ py "cm")
     = Ok (Some (py "200" ++ py "x" ++ py "180" ++ py "cm")).
Proof.
  apply (@size_separator_class (py "200") (py "180") 0x221A).
  - discriminate.
  - discriminate.
  - reflexivity.
  - reflexivity.
Defined.

(** ** The flag patterns in words *)

Lemma lang_empty_inv fl w : lang fl Empty w -> w = [].
Proof. intros L. now inversion L. Qed.

Lemma lang_literals fl kw r w :
  lang fl (fold_right (fun ch k => Seq (Literal ch) k) r kw) w <->
  exists a b, w = a ++ b /\
              Forall2 (fun p ch => literal_test fl p ch = true) kw a /\
              lang fl r b.
Proof.
  revert w. induction kw as [|p kw IH]; intros w; simpl.
  - split.
    + intros L. exists [], w. auto.
    + intros [a [b [-> [F L]]]]. inversion F; subst. exact L.
  - split.
    + intros L. apply lang_seq_inv in L. destruct L as [w1 [w2 [-> [L1 L2]]]].
      inversion L1 as [|? ch E| | | | | | | | |]; subst.
      apply IH in L2. destruct L2 as [a [b [-> [F L]]]].
      exists (ch :: a), b. auto.
    + intros [a [b [-> [F L]]]].
      inversion F as [|? ch ? a' E F']; subst.
      change ((ch :: a') ++ b) with ([ch] ++ (a' ++ b)).
      constructor; [now constructor|]. apply IH. eauto.
Qed.

Lemma lang_star_category fl k w :
  lang fl (Star (Category k)) w <->
  Forall (fun ch => category_test k ch = true) w.
Proof.
  split.
  - intros L. remember (Star (Category k)) as r eqn:Er.
    induction L as [| | | | | | | r0 | r0 w1 w2 L1 _ _ IH2 | |];
      try discriminate; injection Er as ->; [constructor|].
    apply Forall_app. split; [|now apply IH2].
    inversion L1; subst. now repeat constructor.
  - induction 1 as [|ch w' Hch _ IH]; [constructor|].
    change (ch :: w') with ([ch] ++ w'). constructor; [now constructor|exact IH].
Qed.

Lemma lang_spaces_then fl r w :
  lang fl (Seq spaces r) w <->
  exists ws b, w = ws ++ b /\ is_spaces ws = true /\ lang fl r b.
Proof.
  split.
  - intros L. apply lang_seq_inv in L. destruct L as [ws [b [-> [L1 L2]]]].
    exists ws, b. repeat split; [|exact L2].
    apply lang_star_category in L1. rewrite Forall_forall in L1.
    now apply forallb_forall.
  - intros [ws [b [-> [S L]]]]. constructor; [|exact L].
    apply lang_star_category. now apply is_spaces_Forall.
Qed.

Lemma lang_keyword kw w :
  lang true (word kw Empty) w <-> ci_word (py kw) w.
Proof.
  unfold word, ci_word. rewrite lang_literals. split.
  - intros [a [b [-> [F L]]]]. apply lang_empty_inv in L. subst.
    now rewrite app_nil_r.
  - intros F. exists w, []. rewrite app_nil_r. repeat split; [exact F|constructor].
Qed.

Lemma lang_two_keywords kw1 kw2 w :
  lang true (word kw1 (Seq spaces (word kw2 Empty))) w <->
  exists a ws b, w = a ++ ws ++ b /\ ci_word (py kw1) a /\
                 is_spaces ws = true /\ ci_word (py kw2) b.
Proof.
  unfold word at 1. rewrite lang_literals. split.
  - intros [a [v [-> [F L]]]]. apply lang_spaces_then in L.
    destruct L as [ws [b [-> [S L]]]]. apply lang_keyword in L.
    exists a, ws, b. auto.
  - intros [a [ws [b [-> [F [S L]]]]]].
    exists a, (ws ++ b). repeat split; [exact F|].
    apply lang_spaces_then. exists ws, b. repeat split; [exact S|].
    now apply lang_keyword.
Qed.

(** The waterproof pattern: [water] or [rain], white space or none,
    [proof], all without regard to case. *)
Lemma waterproof_words w :
  lang true waterproof_regex w <->
  exists a ws b, w = a ++ ws ++ b /\
                 (ci_word (py "water") a \/ ci_word (py "rain") a) /\
                 is_spaces ws = true /\ ci_word (py "proof") b.
Proof.
  unfold waterproof_regex. split.
  - intros L. inversion L as [| | | | |? ? ? L1|? ? ? L1| | | |]; subst;
      apply lang_two_keywords in L1;
      destruct L1 as [a [ws [b [-> [F [S G]]]]]]; exists a, ws, b; auto.
  - intros [a [ws [b [-> [[F|F] [S G]]]]]].
    + apply L_Branch_l. apply lang_two_keywords. exists a, ws, b. auto.
    + apply L_Branch_r. apply lang_two_keywords. exists a, ws, b. auto.
Qed.

(** The UV pattern: [UV], or [ultraviolet], or [sun], white space or
    none, [protect], all without regard to case. *)
Lemma uv_words w :
  lang true uv_regex w <->
  ci_word (py "UV") w \/ ci_word (py "ultraviolet") w \/
  exists a ws b, w = a ++ ws ++ b /\ ci_word (py "sun") a /\
                 is_spaces ws = true /\ ci_word (py "protect") b.
Proof.
  unfold uv_regex. split.
  - intros L. inversion L as [| | | | |? ? ? L1|? ? ? L1| | | |]; subst.
    + left. now apply lang_keyword.
    + right. inversion L1 as [| | | | |? ? ? L2|? ? ? L2| | | |]; subst.
      * left. now apply lang_keyword.
      * right. now apply lang_two_keywords.
  - intros [F|[F|F]].
    + apply L_Branch_l. now apply lang_keyword.
    + apply L_Branch_r, L_Branch_l. now apply lang_keyword.
    + apply L_Branch_r, L_Branch_r. now apply lang_two_keywords.
Qed.

(** ** The size that is returned is always two runs of digits *)

Lemma loop_groupless fl r :
  (forall s c st, List.In st (run fl r s c) -> snd st = c) ->
  forall n s c st, List.In st (loop (run fl r) n s c) -> snd st = c.
Proof.
  intros Hbody n. induction n as [|n IH]; simpl; intros s c st Hin.
  - now destruct Hin as [<-|[]].
  - apply in_app_or in Hin. destruct Hin as [Hin|[<-|[]]]; [|reflexivity].
    apply in_flat_map in Hin. destruct Hin as [st1 [H1 H2]].
    destruct (List.length (fst st1) <? List.length s)%nat; [|destruct H2].
    apply IH in H2. apply Hbody in H1. congruence.
Qed.

(** A pattern without groups leaves the captures as they were. *)
Lemma run_groupless fl r :
  groupless r = true ->
  forall s c st, List.In st (run fl r s c) -> snd st = c.
Proof.
  induction r as [|p|k|items|r1 IH1 r2 IH2|r1 IH1 r2 IH2|r1 IH1|r1 IH1|i r1 IH1];
    simpl; intros G s c st Hin; try discriminate.
  - now destruct Hin as [<-|[]].
  - apply step_inv in Hin. now destruct Hin as [ch [_ [_ E]]].
  - apply step_inv in Hin. now destruct Hin as [ch [_ [_ E]]].
  - apply step_inv in Hin. now destruct Hin as [ch [_ [_ E]]].
  - apply andb_true_iff in G. destruct G as [G1 G2].
    apply in_flat_map in Hin. destruct Hin as [st1 [H1 H2]].
    apply (IH1 G1) in H1. apply (IH2 G2) in H2. congruence.
  - apply andb_true_iff in G. destruct G as [G1 G2].
    apply in_app_or in Hin. destruct Hin as [Hin|Hin]; eauto.
  - eapply loop_groupless; eauto.
  - apply in_flat_map in Hin. destruct Hin as [st1 [H1 H2]].
    apply (IH1 G) in H1. apply (@loop_groupless fl r1 (IH1 G)) in H2. congruence.
Qed.

Lemma run_seq_groupless fl r1 r2 s c st :
  groupless r1 = true ->
  List.In st (run fl (Seq r1 r2) s c) ->
  exists s1, List.In st (run fl r2 s1 c).
Proof.
  intros G Hin. simpl in Hin. apply in_flat_map in Hin.
  destruct Hin as [st1 [H1 H2]].
  apply (@run_groupless fl r1 G) in H1. rewrite H1 in H2. eauto.
Qed.

Lemma run_seq_subpattern fl i r1 r2 s c st :
  groupless r1 = true ->
  List.In st (run fl (Seq (Subpattern i r1) r2) s c) ->
  exists w s1, lang fl r1 w /\ List.In st (run fl r2 s1 ((i, w) :: c)).
Proof.
  intros G Hin. simpl in Hin. apply in_flat_map in Hin.
  destruct Hin as [st1 [H1 H2]].
  apply in_map_iff in H1. destruct H1 as [st0 [<- H0]]. simpl in H2.
  pose proof (@run_groupless fl r1 G s c st0 H0) as E0.
  apply run_sound in H0. destruct H0 as [w [E L]].
  rewrite E, consumed_app, E0 in H2. eauto.
Qed.

Lemma lang_digits fl w :
  lang fl (Seq digits Empty) w -> w <> [] /\ is_digits w = true.
Proof.
  intros L. apply lang_seq_inv in L. destruct L as [w1 [w2 [-> [L1 L2]]]].
  apply lang_empty_inv in L2. subst. rewrite app_nil_r.
  inversion L1 as [| | | | | | | | |? a b La Lb|]; subst.
  inversion La as [| |? ch E| | | | | | | |]; subst.
  split; [discriminate|].
  apply lang_star_category in Lb. rewrite Forall_forall in Lb.
  simpl. simpl in E. rewrite E. now apply forallb_forall.
Qed.

(** The captures of any success of the size pattern. *)
Lemma size_captures s c st :
  List.In st (run false size_regex s c) ->
  exists W H, W <> [] /\ H <> [] /\ is_digits W = true /\ is_digits H = true /\
              snd st = (2%nat, H) :: (1%nat, W) :: c.
Proof.
  unfold size_regex, word. rewrite py_cm. cbn [fold_right]. intros Hin.
  apply run_seq_subpattern in Hin; [|reflexivity].
  destruct Hin as [W [s1 [LW Hin]]].
  do 6 (apply run_seq_groupless in Hin; [|reflexivity];
        let s' := fresh "s" in destruct Hin as [s' Hin]).
  apply run_seq_subpattern in Hin; [|reflexivity].
  destruct Hin as [H [s8 [LH Hin]]].
  apply run_groupless in Hin; [|reflexivity].
  apply lang_digits in LW, LH. destruct LW, LH.
  exists W, H. auto.
Qed.

Lemma scan_captures fl pat text :
  forall pos m, scan fl pat text pos = Some m ->
  exists s st, List.In st (run fl (p_regex pat) s []) /\ m_captures m = snd st.
Proof.
  induction text as [|a text IH]; intros pos m; rewrite scan_unfold;
    destruct (run fl (p_regex pat) _ []) as [|[s1 c1] l] eqn:E;
    try discriminate.
  - intros [= <-]. exists [], (s1, c1). rewrite E. simpl. auto.
  - apply IH.
  - intros [= <-]. exists (a :: text), (s1, c1). rewrite E. simpl. auto.
Qed.

(** Whenever a size is returned it is [<W>x<H>cm] for two non-empty runs
    of digits: both groups take part in every match. *)
Lemma extract_size_normal_form text sz :
  _extract_size text = Ok (Some sz) ->
  exists W H, W <> [] /\ H <> [] /\ is_digits W = true /\ is_digits H = true /\
              sz = W ++ py "x" ++ H ++ py "cm".
Proof.
  unfold _extract_size, search. rewrite size_pattern_compiles. simpl bind.
  destruct (scan false (mkPattern size_regex 2) text 0) as [m|] eqn:E;
    [|discriminate].
  pose proof (@scan_ngroups false _ text 0 m E) as N. simpl in N.
  apply scan_captures in E. destruct E as [s [st [Hin C]]].
  apply size_captures in Hin.
  destruct Hin as [W [H [HW [HH [DW [DH Est]]]]]].
  unfold group. rewrite N, C, Est. simpl.
  intros [= <-]. exists W, H. auto.
Qed.

(** * Further properties of the extractors *)

(** ** The loop of the two keyword classifiers *)

Lemma first_label_none test table :
  first_label test table = None <->
  forall label kws, List.In (label, kws) table -> existsb test kws = false.
Proof.
  induction table as [|[l k] t IH]; simpl.
  - split; [intros _ ? ? []|reflexivity].
  - destruct (existsb test k) eqn:E.
    + split; [discriminate|].
      intros H. specialize (H l k (or_introl eq_refl)). congruence.
    + rewrite IH. split.
      * intros H label kws [[= <- <-]|Hin]; eauto.
      * intros H label kws Hin. apply (H label kws). now right.
Qed.

(** X1. The label returned is that of the first entry of the table, in
    the order in which it is written, one of whose keywords passes the
    test: the entries before it all fail. *)
Theorem first_label_first_match :
  forall (test : str -> bool) (table : keyword_table) (label : str),
    first_label test table = Some label <->
    exists before kws after,
      table = before ++ (label, kws) :: after /\
      existsb test kws = true /\
      (forall e, List.In e before -> existsb test (snd e) = false).
Proof.
  intros test table label. split.
  - induction table as [|[l k] t IH]; simpl; [discriminate|].
    destruct (existsb test k) eqn:E.
    + intros [= <-]. exists [], k, t. repeat split; [exact E|intros e []].
    + intros H. apply IH in H.
      destruct H as [before [kws [after [-> [Ek Hb]]]]].
      exists ((l, k) :: before), kws, after. repeat split; [exact Ek|].
      intros e [<-|Hin]; [exact E|now apply Hb].
  - intros [before [kws [after [-> [Ek Hb]]]]].
    induction before as [|[l k] before IH]; simpl.
    + now rewrite Ek.
    + pose proof (Hb (l, k) (or_introl eq_refl)) as E. simpl in E.
      rewrite E. apply IH.
      intros e Hin. apply Hb. now right.
Qed.

(** ** The material classifier as a decision table *)

Lemma startswith_prefix a b t :
  startswith (a ++ b) t = true -> startswith a t = true.
Proof.
  revert t. induction a as [|k a IH]; intros [|c t]; simpl; try reflexivity;
    try discriminate.
  intros H. apply andb_true_iff in H. destruct H as [H1 H2].
  rewrite H1. simpl. now apply IH.
Qed.

(** A text that holds a keyword holds every beginning of it. *)
Lemma contains_prefix a b t :
  contains (a ++ b) t = true -> contains a t = true.
Proof.
  induction t as [|c t IH]; intros H.
  - rewrite contains_unfold in H. rewrite contains_unfold.
    rewrite orb_false_r in *. now apply startswith_prefix with b.
  - rewrite contains_unfold in H. rewrite contains_unfold.
    apply orb_true_iff in H. destruct H as [H|H].
    + now rewrite (@startswith_prefix a b (c :: t) H).
    + rewrite (IH H). apply orb_true_r.
Qed.

Lemma polyester_split : py "polyester" = py "poly" ++ py "ester".
Proof. vm_compute. reflexivity. Qed.

Lemma material_table text :
  _detect_material text =
  if contains (py "poly") (lower text) then Some (py "polyester")
  else if contains (py "nylon") (lower text) then Some (py "nylon")
  else if contains (py "cotton") (lower text) then Some (py "cotton")
  else if contains (py "vinyl") (lower text) then Some (py "PVC")
  else None.
Proof.
  unfold _detect_material, materials. cbn [first_label existsb].
  rewrite PVC_keyword_never_found, !orb_false_r. simpl (false || _).
  destruct (contains (py "polyester") (lower text)) eqn:E1.
  - rewrite polyester_split in E1. apply contains_prefix in E1.
    now rewrite E1.
  - simpl (false || _). reflexivity.
Qed.

(** X2. The material depends on four tests of the lowered text, in this
    order: [poly], [nylon], [cotton], [vinyl].  The keyword [polyester]
    adds nothing to [poly], and the keyword [PVC] is never found. *)
Theorem material_decision :
  forall text : str,
    _detect_material text =
    if contains (py "poly") (lower text) then Some (py "polyester")
    else if contains (py "nylon") (lower text) then Some (py "nylon")
    else if contains (py "cotton") (lower text) then Some (py "cotton")
    else if contains (py "vinyl") (lower text) then Some (py "PVC")
    else None.
Proof. exact material_table. Qed.

(** ** The vehicle classifier *)

Lemma hatchback_split : py "HATCHBACK" = py "HATCH" ++ py "BACK".
Proof. vm_compute. reflexivity. Qed.

Lemma types_upper :
  upper (py "SUV") = py "SUV" /\
  upper (py "sport utility") = py "SPORT UTILITY" /\
  upper (py "sedan") = py "SEDAN" /\
  upper (py "hatchback") = py "HATCHBACK" /\
  upper (py "hatch") = py "HATCH" /\
  upper (py "universal") = py "UNIVERSAL" /\
  upper (py "all cars") = py "ALL CARS" /\
  upper (py "fit all") = py "FIT ALL".
Proof. repeat split; vm_compute; reflexivity. Qed.

Lemma vehicle_table text :
  _detect_vehicle_type text =
  if contains (py "SUV") (upper text)
     || contains (py "SPORT UTILITY") (upper text) then Some (py "SUV")
  else if contains (py "SEDAN") (upper text) then Some (py "sedan")
  else if contains (py "HATCH") (upper text) then Some (py "hatchback")
  else if contains (py "UNIVERSAL") (upper text)
          || contains (py "ALL CARS") (upper text)
          || contains (py "FIT ALL") (upper text) then Some (py "universal")
  else None.
Proof.
  unfold _detect_vehicle_type, types. cbn [first_label existsb].
  destruct types_upper as [E1 [E2 [E3 [E4 [E5 [E6 [E7 E8]]]]]]].
  rewrite E1, E2, E3, E4, E5, E6, E7, E8, !orb_false_r, !orb_assoc.
  destruct (contains (py "HATCHBACK") (upper text)) eqn:H.
  - rewrite hatchback_split in H. apply contains_prefix in H.
    rewrite H. reflexivity.
  - simpl (false || _). reflexivity.
Qed.

(** X3. The vehicle type depends on seven tests of the uppered text, in
    this order; the keyword [hatchback] adds nothing to [hatch]. *)
Theorem vehicle_decision :
  forall text : str,
    _detect_vehicle_type text =
    if contains (py "SUV") (upper text)
       || contains (py "SPORT UTILITY") (upper text) then Some (py "SUV")
    else if contains (py "SEDAN") (upper text) then Some (py "sedan")
    else if contains (py "HATCH") (upper text) then Some (py "hatchback")
    else if contains (py "UNIVERSAL") (upper text)
            || contains (py "ALL CARS") (upper text)
            || contains (py "FIT ALL") (upper text) then Some (py "universal")
    else None.
Proof. exact vehicle_table. Qed.

Lemma upper_cp_fold ch k :
  ascii_fold ch = k -> k < 128 -> upper_cp ch = upper_cp k.
Proof.
  unfold ascii_fold. destruct (is_ascii_upper ch) eqn:U; intros <- K;
    [|reflexivity].
  unfold is_ascii_upper in U. apply andb_true_iff in U.
  destruct U as [U1 U2]. apply N.leb_le in U1, U2.
  unfold upper_cp, is_ascii_lower.
  replace (97 <=? ch) with false by (symmetry; apply N.leb_gt; lia).
  replace (97 <=? ch + 32) with true by (symmetry; apply N.leb_le; lia).
  replace (ch + 32 <=? 122) with true by (symmetry; apply N.leb_le; lia).
  cbn [andb].
  repeat match goal with
         | |- context [N.eqb ?a ?b] => destruct (N.eqb_spec a b); [lia|]
         end.
  f_equal. lia.
Qed.

(** Uppering a keyword written in any case gives the uppered keyword. *)
Lemma upper_caseless kw :
  Forall (fun k => k < 128) kw ->
  forall w, List.map ascii_fold w = kw -> upper w = upper kw.
Proof.
  induction 1 as [|k kw Hk _ IH]; intros [|ch w]; simpl; try discriminate.
  - reflexivity.
  - intros [= F1 F2].
    rewrite (@upper_cp_fold ch k F1 Hk). f_equal. now apply IH.
Qed.

Lemma upper_app a b : upper (a ++ b) = upper a ++ upper b.
Proof. apply flat_map_app. Qed.

Lemma contains_upper kw text :
  Forall (fun k => k < 128) kw ->
  contains_ci kw text -> contains (upper kw) (upper text) = true.
Proof.
  intros Hkw [pre [w [post [-> F]]]].
  rewrite !upper_app, (@upper_caseless kw Hkw w F). apply contains_app.
Qed.

Lemma suv_ascii : Forall (fun k => k < 128) (py "suv").
Proof. repeat constructor. Qed.

Lemma upper_suv : upper (py "suv") = py "SUV".
Proof. vm_compute. reflexivity. Qed.

(** X4. [suv] in any letter case (and inside any word) makes the vehicle
    type SUV, whatever else the text holds. *)
Theorem vehicle_suv_any_case :
  forall text : str,
    contains_ci (py "suv") text ->
    _detect_vehicle_type text = Some (py "SUV").
Proof.
  intros text H. apply (@contains_upper (py "suv") text suv_ascii) in H.
  rewrite upper_suv in H. rewrite vehicle_table, H. reflexivity.
Qed.

Lemma vehicle_suv_any_case_witness :
  _detect_vehicle_type (py "fits most Suvs") = Some (py "SUV").
Proof.
  apply (@vehicle_suv_any_case (py "fits most Suvs")).
  exists (py "fits most "), (py "Suv"), (py "s"). split; vm_compute; reflexivity.
Defined.

(** X5. PVC is reported exactly for the texts whose lowered form holds
    [vinyl] and none of [poly], [nylon], [cotton]; the letters [pvc]
    themselves play no part. *)
Theorem material_PVC_iff_vinyl :
  forall text : str,
    _detect_material text = Some (py "PVC") <->
    contains (py "vinyl") (lower text) = true /\
    contains (py "poly") (lower text) = false /\
    contains (py "nylon") (lower text) = false /\
    contains (py "cotton") (lower text) = false.
Proof.
  intros text. rewrite material_table.
  destruct (contains (py "poly") (lower text));
    destruct (contains (py "nylon") (lower text));
    destruct (contains (py "cotton") (lower text));
    destruct (contains (py "vinyl") (lower text));
    split; try (intros [A [B [C D]]]; discriminate);
    try (intros Q; vm_compute in Q; discriminate Q); auto.
Qed.

(** ** The flags and the vehicle type together *)

Lemma uv_found text :
  contains_ci (py "uv") text ->
  truth (scan true (mkPattern uv_regex 0) text 0) = true.
Proof.
  intros [pre [w [post [-> F]]]].
  apply scan_complete. exists pre, w, post. split; [reflexivity|].
  apply L_Branch_l. rewrite <- (app_nil_r w).
  apply (@lang_caseless (py "UV")); [repeat constructor|exact F|constructor].
Qed.

Lemma contains_ci_suffix a b text :
  contains_ci (a ++ b) text -> contains_ci b text.
Proof.
  intros [pre [w [post [-> F]]]].
  apply map_eq_app in F. destruct F as [w1 [w2 [-> [_ F2]]]].
  exists (pre ++ w1), w2, post. split; [|exact F2].
  now rewrite <- !app_assoc.
Qed.

(** X6. A text with [suv] in any letter case is given the vehicle type
    SUV and, because [uv] is part of [suv], the UV-protection flag as
    well. *)
Theorem suv_sets_uv_flag :
  forall text : str,
    contains_ci (py "suv") text ->
    exists record : specs,
      _extract_cover_specs text = Ok record /\
      vehicle_type record = Some (py "SUV") /\
      has_uv_protection record = true.
Proof.
  intros text H.
  destruct (extract_cover_specs_eq text) as [sz [_ E]].
  rewrite E. eexists. split; [reflexivity|]. simpl. split.
  - apply (@contains_upper (py "suv") text suv_ascii) in H.
    rewrite upper_suv in H. rewrite vehicle_table, H. reflexivity.
  - apply uv_found. apply (@contains_ci_suffix (py "s") (py "uv")).
    exact H.
Qed.

Lemma suv_sets_uv_flag_witness :
  exists record : specs,
    _extract_cover_specs (py "Cover for SUV") = Ok record /\
    vehicle_type record = Some (py "SUV") /\
    has_uv_protection record = true.
Proof.
  apply (@suv_sets_uv_flag (py "Cover for SUV")).
  exists (py "Cover for "), (py "SUV"), (py ""). split; vm_compute; reflexivity.
Defined.

(** ** What the size extractor reads *)

Lemma run_seq_groupless_at fl r1 r2 s c st :
  groupless r1 = true ->
  List.In st (run fl (Seq r1 r2) s c) ->
  exists w1 s1, s = w1 ++ s1 /\ lang fl r1 w1 /\ List.In st (run fl r2 s1 c).
Proof.
  intros G Hin. simpl in Hin. apply in_flat_map in Hin.
  destruct Hin as [st1 [H1 H2]].
  pose proof (@run_groupless fl r1 G s c st1 H1) as E1.
  apply run_sound in H1. destruct H1 as [w1 [E L]].
  rewrite E1 in H2. exists w1, (fst st1). auto.
Qed.

Lemma run_seq_subpattern_at fl i r1 r2 s c st :
  groupless r1 = true ->
  List.In st (run fl (Seq (Subpattern i r1) r2) s c) ->
  exists w s1, s = w ++ s1 /\ lang fl r1 w /\
               List.In st (run fl r2 s1 ((i, w) :: c)).
Proof.
  intros G Hin. simpl in Hin. apply in_flat_map in Hin.
  destruct Hin as [st1 [H1 H2]].
  apply in_map_iff in H1. destruct H1 as [st0 [<- H0]]. simpl in H2.
  pose proof (@run_groupless fl r1 G s c st0 H0) as E0.
  apply run_sound in H0. destruct H0 as [w [E L]].
  exists w, (fst st0). split; [exact E|]. split; [exact L|].
  rewrite E0 in H2. rewrite E in H2 at 1. now rewrite consumed_app in H2.
Qed.

Lemma lang_literal_inv p w : lang false (Literal p) w -> w = [p].
Proof.
  intros L. inversion L as [|? ch E| | | | | | | | |]; subst.
  simpl in E. apply N.eqb_eq in E. now subst.
Qed.

Lemma lang_spaces_inv fl w : lang fl spaces w -> is_spaces w = true.
Proof.
  intros L. apply lang_star_category in L. rewrite Forall_forall in L.
  now apply forallb_forall.
Qed.

(** Every success of the size pattern has read a size: digits, [cm], a
    character of the class, digits, [cm], with white space in between. *)
Lemma size_run_shape s c st :
  List.In st (run false size_regex s c) ->
  exists W ws0 ws1 sep ws2 H ws3,
    s = W ++ ws0 ++ [99; 109] ++ ws1 ++ sep :: ws2 ++ H ++ ws3
          ++ [99; 109] ++ fst st /\
    W <> [] /\ H <> [] /\ is_digits W = true /\ is_digits H = true /\
    is_spaces ws0 = true /\ is_spaces ws1 = true /\
    is_spaces ws2 = true /\ is_spaces ws3 = true /\
    List.In sep separator_class /\
    snd st = (2%nat, H) :: (1%nat, W) :: c.
Proof.
  unfold size_regex, word. rewrite py_cm. cbn [fold_right]. intros Hin.
  apply run_seq_subpattern_at in Hin; [|reflexivity].
  destruct Hin as [W [s1 [-> [LW Hin]]]].
  apply run_seq_groupless_at in Hin; [|reflexivity].
  destruct Hin as [ws0 [s2 [-> [L0 Hin]]]].
  apply run_seq_groupless_at in Hin; [|reflexivity].
  destruct Hin as [c1 [s3 [-> [Lc1 Hin]]]].
  apply run_seq_groupless_at in Hin; [|reflexivity].
  destruct Hin as [m1 [s4 [-> [Lm1 Hin]]]].
  apply run_seq_groupless_at in Hin; [|reflexivity].
  destruct Hin as [ws1 [s5 [-> [L1 Hin]]]].
  apply run_seq_groupless_at in Hin; [|reflexivity].
  destruct Hin as [x [s6 [-> [Lx Hin]]]].
  apply run_seq_groupless_at in Hin; [|reflexivity].
  destruct Hin as [ws2 [s7 [-> [L2 Hin]]]].
  apply run_seq_subpattern_at in Hin; [|reflexivity].
  destruct Hin as [H [s8 [-> [LH Hin]]]].
  apply run_seq_groupless_at in Hin; [|reflexivity].
  destruct Hin as [ws3 [s9 [-> [L3 Hin]]]].
  apply run_seq_groupless_at in Hin; [|reflexivity].
  destruct Hin as [c2 [s10 [-> [Lc2 Hin]]]].
  apply run_seq_groupless_at in Hin; [|reflexivity].
  destruct Hin as [m2 [s11 [-> [Lm2 Hin]]]].
  destruct Hin as [<-|[]]. cbn [fst snd].
  apply lang_literal_inv in Lc1, Lm1, Lc2, Lm2. subst.
  apply lang_set_inv in Lx. destruct Lx as [sep [-> Hsep]].
  apply lang_spaces_inv in L0, L1, L2, L3.
  apply lang_digits in LW, LH. destruct LW as [HW DW], LH as [HH DH].
  exists W, ws0, ws1, sep, ws2, H, ws3.
  repeat split; try assumption.
Qed.

Lemma scan_match_at fl pat text :
  forall pos m, scan fl pat text pos = Some m ->
  exists pre s st, text = pre ++ s /\
                   List.In st (run fl (p_regex pat) s []) /\
                   m_captures m = snd st.
Proof.
  induction text as [|a text IH]; intros pos m; rewrite scan_unfold;
    destruct (run fl (p_regex pat) _ []) as [|[s1 c1] l] eqn:E;
    try discriminate.
  - intros [= <-]. exists [], [], (s1, c1). rewrite E. simpl. auto.
  - intros Hm. apply IH in Hm. destruct Hm as [pre [s [st [-> [Hin C]]]]].
    exists (a :: pre), s, st. auto.
  - intros [= <-]. exists [], (a :: text), (s1, c1). rewrite E. simpl. auto.
Qed.

Lemma extract_size_reads text sz :
  _extract_size text = Ok (Some sz) ->
  exists pre W ws0 ws1 sep ws2 H ws3 post,
    text = pre ++ W ++ ws0 ++ py "cm" ++ ws1 ++ sep :: ws2 ++ H ++ ws3
             ++ py "cm" ++ post /\
    W <> [] /\ H <> [] /\ is_digits W = true /\ is_digits H = true /\
    is_spaces ws0 = true /\ is_spaces ws1 = true /\
    is_spaces ws2 = true /\ is_spaces ws3 = true /\
    List.In sep separator_class /\
    sz = W ++ py "x" ++ H ++ py "cm".
Proof.
  unfold _extract_size, search. rewrite size_pattern_compiles. simpl bind.
  destruct (scan false (mkPattern size_regex 2) text 0) as [m|] eqn:E;
    [|discriminate].
  pose proof (@scan_ngroups false _ text 0 m E) as N. simpl in N.
  apply scan_match_at in E. destruct E as [pre [s [st [-> [Hin C]]]]].
  apply size_run_shape in Hin.
  destruct Hin as [W [ws0 [ws1 [sep [ws2 [H [ws3 Hin]]]]]]].
  destruct Hin as [-> [HW [HH [DW [DH [S0 [S1 [S2 [S3 [Hsep Est]]]]]]]]]].
  unfold group. rewrite N, C, Est. simpl.
  intros [= <-]. rewrite py_cm.
  exists pre, W, ws0, ws1, sep, ws2, H, ws3, (fst st).
  repeat split; assumption.
Qed.

(** X7. A size is returned only if it is written in the text: the result
    [<W>x<H>cm] comes from a place of the text that reads [W], [cm], one
    of the three separators, [H], [cm], with [W] and [H] non-empty runs
    of digits and nothing but white space in between. *)
Theorem extract_size_sound :
  forall (text sz : str),
    _extract_size text = Ok (Some sz) ->
    exists pre W ws0 ws1 sep ws2 H ws3 post,
      text = pre ++ W ++ ws0 ++ py "cm" ++ ws1 ++ sep :: ws2 ++ H ++ ws3
               ++ py "cm" ++ post /\
      W <> [] /\ H <> [] /\ is_digits W = true /\ is_digits H = true /\
      is_spaces ws0 = true /\ is_spaces ws1 = true /\
      is_spaces ws2 = true /\ is_spaces ws3 = true /\
      List.In sep separator_class /\
      sz = W ++ py "x" ++ H ++ py "cm".
Proof. exact extract_size_reads. Qed.

Lemma extract_size_sound_witness :
  exists pre W ws0 ws1 sep ws2 H ws3 post,
    py "Size: 150cm x 120cm for SUV"
      = pre ++ W ++ ws0 ++ py "cm" ++ ws1 ++ sep :: ws2 ++ H ++ ws3
          ++ py "cm" ++ post /\
    W <> [] /\ H <> [] /\ is_digits W = true /\ is_digits H = true /\
    is_spaces ws0 = true /\ is_spaces ws1 = true /\
    is_spaces ws2 = true /\ is_spaces ws3 = true /\
    List.In sep separator_class /\
    py "150x120cm" = W ++ py "x" ++ H ++ py "cm".
Proof.
  apply (@extract_size_sound (py "Size: 150cm x 120cm for SUV") (py "150x120cm")).
  vm_compute. reflexivity.
Defined.

(** X8. Without the letters [cm], in lower case and side by side, no
    size is returned. *)
Theorem extract_size_needs_cm :
  forall text : str,
    contains (py "cm") text = false -> _extract_size text = Ok None.
Proof.
  intros text Hcm. destruct (extract_size_total text) as [[sz|] E]; [|exact E].
  exfalso. apply extract_size_reads in E.
  destruct E as [pre [W [ws0 [ws1 [sep [ws2 [H [ws3 [post [E _]]]]]]]]]].
  rewrite E in Hcm.
  replace (pre ++ W ++ ws0 ++ py "cm" ++ ws1 ++ sep :: ws2 ++ H ++ ws3
             ++ py "cm" ++ post)
    with ((pre ++ W ++ ws0) ++ py "cm" ++ ws1 ++ sep :: ws2 ++ H ++ ws3
             ++ py "cm" ++ post) in Hcm
    by now rewrite <- !app_assoc.
  rewrite contains_app in Hcm. discriminate.
Qed.

Lemma extract_size_needs_cm_witness :
  _extract_size (py "150 x 120 CM, 5 c m") = Ok None.
Proof.
  apply (@extract_size_needs_cm (py "150 x 120 CM, 5 c m")).
  vm_compute. reflexivity.
Defined.

(** A match of the size pattern starts at a digit. *)
Lemma size_run_needs_digit s c :
  stops CATEGORY_DIGIT s -> run false size_regex s c = [].
Proof.
  unfold size_regex, digits. cbn [run]. destruct s as [|ch s]; [reflexivity|].
  cbn [stops category_test step]. intros ->. reflexivity.
Qed.

Lemma scan_size_skip pre s :
  no_digit pre = true ->
  forall pos,
    scan false (mkPattern size_regex 2) (pre ++ s) pos =
    scan false (mkPattern size_regex 2) s (List.length pre + pos).
Proof.
  induction pre as [|ch pre IH]; intros N pos; [reflexivity|].
  simpl in N. apply andb_true_iff in N. destruct N as [N1 N2].
  apply negb_true_iff in N1.
  simpl app. rewrite scan_unfold. cbn [p_regex].
  rewrite size_run_needs_digit by exact N1.
  rewrite (IH N2). f_equal. simpl. lia.
Qed.

(** X9. Only the first size counts: after text without a digit, a size
    is returned whatever follows it, another size included. *)
Theorem extract_size_first_size :
  forall (pre W ws0 ws1 : str) (sep : cp) (ws2 H ws3 tail : str),
    no_digit pre = true ->
    W <> [] -> H <> [] -> is_digits W = true -> is_digits H = true ->
    is_spaces ws0 = true -> is_spaces ws1 = true ->
    is_spaces ws2 = true -> is_spaces ws3 = true ->
    List.In sep separator_class ->
    _extract_size (pre ++ W ++ ws0 ++ py "cm" ++ ws1 ++ sep :: ws2 ++ H
                     ++ ws3 ++ py "cm" ++ tail)
    = Ok (Some (W ++ py "x" ++ H ++ py "cm")).
Proof.
  intros pre W ws0 ws1 sep ws2 H ws3 tail N HW HH DW DH S0 S1 S2 S3 Hsep.
  unfold _extract_size, search. rewrite size_pattern_compiles. simpl bind.
  rewrite (@scan_size_skip pre _ N). rewrite py_cm.
  erewrite scan_first;
    [|simpl p_regex; apply size_first; eassumption].
  reflexivity.
Qed.

Lemma extract_size_first_size_witness :
  _extract_size (py "Size: " ++ py "150" ++ [] ++ py "cm" ++ [32] ++ 120 :: [32]
                   ++ py "120" ++ [] ++ py "cm" ++ py ", or 200cm x 180cm")
  = Ok (Some (py "150" ++ py "x" ++ py "120" ++ py "cm")).
Proof.
  apply (@extract_size_first_size (py "Size: ") (py "150") [] [32] 120 [32]
           (py "120") [] (py ", or 200cm x 180cm"));
    try reflexivity; try discriminate.
  simpl. auto.
Defined.

(** ** The two flags, in words *)

(** X10. The waterproof flag is set exactly when the description holds
    [water] or [rain], then white space or nothing, then [proof], each
    letter compared without regard to case. *)
Theorem waterproof_flag_iff :
  forall (text : str) (record : specs),
    _extract_cover_specs text = Ok record ->
    (is_waterproof record = true <->
     exists pre a ws b post,
       text = pre ++ (a ++ ws ++ b) ++ post /\
       (ci_word (py "water") a \/ ci_word (py "rain") a) /\
       is_spaces ws = true /\ ci_word (py "proof") b).
Proof.
  intros text record E.
  destruct (extract_cover_specs_eq text) as [sz [_ E']].
  rewrite E' in E. injection E as <-. cbn [is_waterproof].
  rewrite scan_iff. cbn [p_regex]. split.
  - intros [pre [w [post [-> L]]]]. apply waterproof_words in L.
    destruct L as [a [ws [b [-> L]]]]. exists pre, a, ws, b, post. auto.
  - intros [pre [a [ws [b [post [-> L]]]]]].
    exists pre, (a ++ ws ++ b), post. split; [reflexivity|].
    apply waterproof_words. exists a, ws, b. auto.
Qed.

Lemma waterproof_flag_iff_witness :
  true = true <->
  exists pre a ws b post,
    py "Rainproof cover" = pre ++ (a ++ ws ++ b) ++ post /\
    (ci_word (py "water") a \/ ci_word (py "rain") a) /\
    is_spaces ws = true /\ ci_word (py "proof") b.
Proof.
  apply (@waterproof_flag_iff (py "Rainproof cover")
           (mkSpecs None None true false None)).
  vm_compute. reflexivity.
Defined.

(** X11. The UV flag is set exactly when the description holds [uv], or
    [ultraviolet], or [sun], white space or nothing, [protect], each
    letter compared without regard to case. *)
Theorem uv_flag_iff :
  forall (text : str) (record : specs),
    _extract_cover_specs text = Ok record ->
    (has_uv_protection record = true <->
     exists pre w post,
       text = pre ++ w ++ post /\
       (ci_word (py "UV") w \/ ci_word (py "ultraviolet") w \/
        exists a ws b, w = a ++ ws ++ b /\ ci_word (py "sun") a /\
                       is_spaces ws = true /\ ci_word (py "protect") b)).
Proof.
  intros text record E.
  destruct (extract_cover_specs_eq text) as [sz [_ E']].
  rewrite E' in E. injection E as <-. cbn [has_uv_protection].
  rewrite scan_iff. cbn [p_regex]. split.
  - intros [pre [w [post [-> L]]]]. apply uv_words in L.
    exists pre, w, post. auto.
  - intros [pre [w [post [-> L]]]]. apply uv_words in L.
    exists pre, w, post. auto.
Qed.

Lemma uv_flag_iff_witness :
  false = true <->
  exists pre w post,
    py "Rainproof cover" = pre ++ w ++ post /\
    (ci_word (py "UV") w \/ ci_word (py "ultraviolet") w \/
     exists a ws b, w = a ++ ws ++ b /\ ci_word (py "sun") a /\
                    is_spaces ws = true /\ ci_word (py "protect") b).
Proof.
  apply (@uv_flag_iff (py "Rainproof cover")
           (mkSpecs None None true false None)).
  vm_compute. reflexivity.
Defined.

(** Two keywords in any case, with one blank or nothing between them. *)
Lemma lang_caseless_spaced kw1 kw2 sp w :
  Forall (fun p => is_ascii_lower (ascii_fold p) = true) (py kw1) ->
  Forall (fun p => is_ascii_lower (ascii_fold p) = true) (py kw2) ->
  sp = [] \/ sp = [32] ->
  List.map ascii_fold w = py kw1 ++ sp ++ py kw2 ->
  py kw1 = List.map ascii_fold (py kw1) ->
  py kw2 = List.map ascii_fold (py kw2) ->
  lang true (word kw1 (Seq spaces (word kw2 Empty))) w.
Proof.
  intros F1 F2 Hsp E I1 I2.
  apply map_eq_app in E. destruct E as [w1 [v [-> [E1 E]]]].
  apply map_eq_app in E. destruct E as [ws [w2 [-> [Es E2]]]].
  unfold word at 1. apply lang_caseless; [exact F1|exact (eq_trans E1 I1)|].
  constructor.
  - apply lang_star_category.
    destruct Hsp as [-> | ->].
    + apply map_eq_nil in Es. subst. constructor.
    + destruct ws as [|ch [|? ?]]; try discriminate.
      injection Es as Es. unfold ascii_fold in Es.
      destruct (is_ascii_upper ch) eqn:U.
      * unfold is_ascii_upper in U. apply andb_true_iff in U.
        destruct U as [U _]. apply N.leb_le in U. lia.
      * subst. repeat constructor.
  - rewrite <- (app_nil_r w2). unfold word.
    apply lang_caseless; [exact F2|exact (eq_trans E2 I2)|constructor].
Qed.

(** X12. [waterproof], [water proof], [rainproof] and [rain proof], in
    any letter case, set the waterproof flag. *)
Theorem waterproof_any_case :
  forall (text first sp : str),
    first = py "water" \/ first = py "rain" ->
    sp = [] \/ sp = [32] ->
    contains_ci (first ++ sp ++ py "proof") text ->
    exists record : specs,
      _extract_cover_specs text = Ok record /\
      is_waterproof record = true.
Proof.
  intros text first sp Hfirst Hsp [pre [w [post [-> F]]]].
  destruct (extract_cover_specs_eq (pre ++ w ++ post)) as [sz [_ E]].
  rewrite E. eexists. split; [reflexivity|]. cbn [is_waterproof].
  apply scan_complete. exists pre, w, post. split; [reflexivity|].
  cbn [p_regex]. unfold waterproof_regex.
  destruct Hfirst as [-> | ->].
  - apply L_Branch_l.
    apply (@lang_caseless_spaced "water" "proof" sp w);
      [repeat constructor|repeat constructor|exact Hsp|exact F
      |vm_compute; reflexivity|vm_compute; reflexivity].
  - apply L_Branch_r.
    apply (@lang_caseless_spaced "rain" "proof" sp w);
      [repeat constructor|repeat constructor|exact Hsp|exact F
      |vm_compute; reflexivity|vm_compute; reflexivity].
Qed.

Lemma waterproof_any_case_witness :
  exists record : specs,
    _extract_cover_specs (py "100% WaterProof") = Ok record /\
    is_waterproof record = true.
Proof.
  apply (@waterproof_any_case (py "100% WaterProof") (py "water") []).
  - left. reflexivity.
  - left. reflexivity.
  - exists (py "100% "), (py "WaterProof"), (py "").
    split; vm_compute; reflexivity.
Defined.

(** * Properties of the scraper loops *)

Lemma scrape_listing_page_fetched found :
  exists sp, _scrape_listing_page (Fetched found) = Some sp.
Proof.
  simpl.
  destruct (extract_cover_specs_eq
              (match found with Some text => text | None => py "" end))
    as [sz [_ E]].
  rewrite E. eauto.
Qed.

(** X13. The page of a listing yields [None] only when fetching it
    raised: every description, the empty one of a page without a
    description block included, gives a record. *)
Theorem scrape_listing_page_none_iff :
  forall div : fetched (option str),
    _scrape_listing_page div = None <-> div = Failed.
Proof.
  intros [found|]; [|simpl; tauto].
  destruct (scrape_listing_page_fetched found) as [sp E]. rewrite E.
  split; discriminate.
Qed.

Lemma specs_dict_truth sp : dict_truth (display (specs_items sp)) = true.
Proof. destruct sp. vm_compute. reflexivity. Qed.

(** X14. The row of a listing has ten columns, in this order, and the
    five values of the record reach it unchanged: no key of the record
    collides with a key of the listing. *)
Theorem listing_row_columns :
  forall (title price location link : str) (sp : specs) (now : str),
    listing_row title price location link sp now =
    [ (py "title", VStr title);
      (py "price", VStr price);
      (py "location", VStr location);
      (py "url", VStr link);
      (py "material", of_option (material sp));
      (py "vehicle_type", of_option (vehicle_type sp));
      (py "is_waterproof", VBool (is_waterproof sp));
      (py "has_uv_protection", VBool (has_uv_protection sp));
      (py "size", of_option (size sp));
      (py "scraped_at", VStr now) ].
Proof. intros. destruct sp. vm_compute. reflexivity. Qed.

Section ScrapeProperties.

Variable urljoin : str -> str -> fetched str.

Lemma listings_loop_incomplete listings :
  (exists l, List.In l listings /\ complete l = false) ->
  forall listing_data, listings_loop urljoin listings listing_data = Failed.
Proof.
  induction listings as [|l rest IH]; intros [l0 [Hin Hc]] listing_data.
  - destruct Hin.
  - cbn [listings_loop]. destruct Hin as [->|Hin].
    + unfold complete in Hc.
      destruct (itemTitle l0), (itemPrice l0), (item_location l0),
        (itemAd_href l0); try reflexivity; discriminate.
    + assert (Hrest : exists l1, List.In l1 rest /\ complete l1 = false)
        by (exists l0; auto).
      destruct (itemTitle l), (itemPrice l), (item_location l),
        (itemAd_href l) as [href|]; try reflexivity.
      destruct (urljoin base_url href); [|reflexivity].
      destruct (_scrape_listing_page (itemPage l)) as [sp|];
        [rewrite specs_dict_truth|]; now apply IH.
Qed.

(** A link on which [urljoin] raises costs the page as well. *)
Lemma listings_loop_unjoined listings :
  (exists l, List.In l listings /\ joins urljoin l = false) ->
  forall listing_data, listings_loop urljoin listings listing_data = Failed.
Proof.
  induction listings as [|l rest IH]; intros [l0 [Hin Hj]] listing_data.
  - destruct Hin.
  - cbn [listings_loop]. destruct Hin as [->|Hin].
    + unfold joins in Hj.
      destruct (itemTitle l0), (itemPrice l0), (item_location l0),
        (itemAd_href l0) as [href|]; try reflexivity.
      destruct (urljoin base_url href); [discriminate|reflexivity].
    + assert (Hrest : exists l1, List.In l1 rest /\ joins urljoin l1 = false)
        by (exists l0; auto).
      destruct (itemTitle l), (itemPrice l), (item_location l),
        (itemAd_href l) as [href|]; try reflexivity.
      destruct (urljoin base_url href); [|reflexivity].
      destruct (_scrape_listing_page (itemPage l)) as [sp|];
        [rewrite specs_dict_truth|]; now apply IH.
Qed.

Lemma listings_loop_complete listings :
  forallb complete listings = true ->
  forallb (joins urljoin) listings = true ->
  forall listing_data,
  exists rows,
    listings_loop urljoin listings listing_data = Fetched (listing_data ++ rows) /\
    List.map (fun row => getitem row (py "url")) rows =
    List.map (link_of urljoin) (filter page_fetched listings).
Proof.
  induction listings as [|l rest IH]; intros Hc Hj listing_data.
  - exists []. simpl. now rewrite app_nil_r.
  - simpl in Hc. apply andb_true_iff in Hc. destruct Hc as [Hl Hrest].
    simpl in Hj. apply andb_true_iff in Hj. destruct Hj as [Hjl Hjrest].
    cbn [listings_loop filter]. unfold complete in Hl. unfold joins in Hjl.
    unfold page_fetched at 1.
    destruct (itemTitle l) as [t|]; [|discriminate].
    destruct (itemPrice l) as [p|]; [|discriminate].
    destruct (item_location l) as [loc|]; [|discriminate].
    destruct (itemAd_href l) as [href|] eqn:Eh; [|discriminate].
    destruct (urljoin base_url href) as [link|] eqn:Eu; [|discriminate].
    destruct (itemPage l) as [found|] eqn:Ep.
    + destruct (scrape_listing_page_fetched found) as [sp Esp].
      rewrite Esp, specs_dict_truth.
      destruct (IH Hrest Hjrest
                  (listing_data
                     ++ [listing_row (strip t) (strip p) (strip loc)
                           link sp (scraped_at l)]))
        as [rows [E1 E2]].
      eexists (_ :: rows). split.
      * rewrite E1, <- app_assoc. reflexivity.
      * cbn [List.map]. f_equal; [|exact E2].
        unfold link_of. rewrite Eh, Eu.
        destruct sp. vm_compute. reflexivity.
    + cbn [_scrape_listing_page].
      destruct (IH Hrest Hjrest listing_data) as [rows [E1 E2]].
      exists rows. auto.
Qed.

Lemma pages_loop_acc pages :
  forall results,
    pages_loop urljoin pages results = results ++ pages_loop urljoin pages [].
Proof.
  induction pages as [|[listings|] rest IH]; intros results; simpl.
  - now rewrite app_nil_r.
  - destruct (listings_loop urljoin listings []) as [listing_data|].
    + rewrite (IH (results ++ listing_data)), (IH listing_data).
      now rewrite app_assoc.
    + apply IH.
  - apply IH.
Qed.

End ScrapeProperties.

(** X15. One listing without title, price, location or link costs the
    whole page: none of the listings of that page reaches the result,
    those before the incomplete one included. *)
Theorem scrape_page_all_or_nothing :
  forall (urljoin : str -> str -> fetched str) (listings : list listing)
         (rest : list (fetched (list listing))),
    (exists l, List.In l listings /\ complete l = false) ->
    scrape urljoin (Fetched listings :: rest) = scrape urljoin rest.
Proof.
  intros urljoin listings rest H. unfold scrape. simpl.
  now rewrite (@listings_loop_incomplete urljoin listings H []).
Qed.

Lemma scrape_page_all_or_nothing_witness :
  scrape (fun base href => Fetched (base ++ href))
    (Fetched [ mkListing (Some (py " Car cover ")) (Some (py "500"))
                 (Some (py "Pune")) (Some (py "/item/1"))
                 (Fetched (Some (py "Waterproof polyester"))) (py "t1");
               mkListing (Some (py "Body cover")) None
                 (Some (py "Delhi")) (Some (py "/item/2"))
                 (Fetched None) (py "t2") ]
     :: [])
  = scrape (fun base href => Fetched (base ++ href)) [].
Proof.
  apply (@scrape_page_all_or_nothing (fun base href => Fetched (base ++ href))).
  eexists. split; [right; left; reflexivity|reflexivity].
Defined.

(** X16. On a page whose listings all have their four nodes and whose
    links are all joined without an exception, the rows are those of the
    listings whose own page could be fetched, in the order of the page: a
    listing is not dropped for what its description says or lacks. *)
Theorem scrape_page_rows :
  forall (urljoin : str -> str -> fetched str) (listings : list listing),
    forallb complete listings = true ->
    forallb (joins urljoin) listings = true ->
    List.map (fun row => getitem row (py "url"))
             (scrape urljoin [Fetched listings]) =
    List.map (link_of urljoin) (filter page_fetched listings).
Proof.
  intros urljoin listings Hc Hj. unfold scrape. simpl.
  destruct (@listings_loop_complete urljoin listings Hc Hj [])
    as [rows [E1 E2]].
  rewrite E1. exact E2.
Qed.

Lemma scrape_page_rows_witness :
  List.map (fun row => getitem row (py "url"))
    (scrape (fun base href => Fetched (base ++ href))
       [Fetched [ mkListing (Some (py "Car cover")) (Some (py "500"))
                    (Some (py "Pune")) (Some (py "/item/1"))
                    (Fetched None) (py "t1");
                  mkListing (Some (py "Body cover")) (Some (py "700"))
                    (Some (py "Delhi")) (Some (py "/item/2"))
                    Failed (py "t2") ]]) =
  List.map (link_of (fun base href => Fetched (base ++ href)))
    (filter page_fetched
       [ mkListing (Some (py "Car cover")) (Some (py "500"))
           (Some (py "Pune")) (Some (py "/item/1"))
           (Fetched None) (py "t1");
         mkListing (Some (py "Body cover")) (Some (py "700"))
           (Some (py "Delhi")) (Some (py "/item/2"))
           Failed (py "t2") ]).
Proof.
  apply (@scrape_page_rows (fun base href => Fetched (base ++ href)));
    vm_compute; reflexivity.
Defined.

(** X17. The result is the rows of the pages one after the other: what
    happens on one page changes nothing to the rows of another. *)
Theorem scrape_pages_append :
  forall (urljoin : str -> str -> fetched str)
         (pages1 pages2 : list (fetched (list listing))),
    scrape urljoin (pages1 ++ pages2) =
    scrape urljoin pages1 ++ scrape urljoin pages2.
Proof.
  intros urljoin pages1 pages2. unfold scrape.
  induction pages1 as [|[listings|] rest IH]; simpl.
  - reflexivity.
  - destruct (listings_loop urljoin listings []) as [listing_data|].
    + rewrite (@pages_loop_acc urljoin (rest ++ pages2) listing_data).
      rewrite (@pages_loop_acc urljoin rest listing_data).
      rewrite IH. now rewrite app_assoc.
    + exact IH.
  - exact IH.
Qed.

(** * The extraction does not depend on the pattern cache *)

Lemma str_eqb_eq a : forall b, str_eqb a b = true -> a = b.
Proof.
  induction a as [|x a IH]; intros [|y b]; simpl; try discriminate;
    [reflexivity|].
  intros H. apply andb_true_iff in H. destruct H as [H1 H2].
  apply N.eqb_eq in H1. apply IH in H2. now subst.
Qed.

Lemma key_eqb_eq k1 k2 : key_eqb k1 k2 = true -> k1 = k2.
Proof.
  destruct k1 as [[t1 p1] f1], k2 as [[t2 p2] f2]. unfold key_eqb.
  cbn [fst snd]. intros H.
  apply andb_true_iff in H. destruct H as [H H3].
  apply andb_true_iff in H. destruct H as [H1 H2].
  apply str_eqb_eq in H2. apply N.eqb_eq in H3.
  destruct t1, t2; try discriminate; now subst.
Qed.

Lemma cache_lookup_in c k co :
  cache_lookup c k = Some co -> List.In (k, co) c.
Proof.
  induction c as [|[k' co'] c IH]; simpl; [discriminate|].
  destruct (key_eqb k k') eqn:E.
  - intros [= ->]. apply key_eqb_eq in E. subst. now left.
  - intros H. right. auto.
Qed.

Lemma in_tl {A : Type} (x : A) l : List.In x (tl l) -> List.In x l.
Proof. destruct l; simpl; auto. Qed.

Lemma flags_value_inj fl1 fl2 : flags_value fl1 = flags_value fl2 -> fl1 = fl2.
Proof. destruct fl1, fl2; simpl; intros H; try reflexivity; discriminate. Qed.

(** [_compile] keeps the cache consistent. *)
Lemma compile_in_consistent pattern fl c :
  cache_consistent c -> cache_consistent (snd (_compile pattern fl c)).
Proof.
  intros Hc. unfold _compile.
  destruct (cache_lookup c (str_pattern, pattern, flags_value fl))
    as [co|] eqn:L; [exact Hc|].
  destruct (compile pattern) as [p|e] eqn:E; cbn [fst snd]; [|exact Hc].
  intros pattern' fl' co Hin p' E'.
  apply in_app_or in Hin. destruct Hin as [Hin|Hin].
  - apply (Hc pattern' fl' co); [|exact E'].
    destruct (Nat.leb _MAXCACHE (List.length c)); [|exact Hin].
    now apply in_tl.
  - destruct Hin as [[= <- F <-]|[]]. apply flags_value_inj in F.
    subst. congruence.
Qed.

(** On a consistent cache a hit and a miss return the same object. *)
Lemma compile_in_result pattern fl c p :
  cache_consistent c -> compile pattern = Ok p ->
  fst (_compile pattern fl c) = Ok (mkCompiled p fl).
Proof.
  intros Hc E. unfold _compile.
  destruct (cache_lookup c (str_pattern, pattern, flags_value fl))
    as [co|] eqn:L.
  - apply cache_lookup_in in L. cbn [fst].
    now rewrite (Hc pattern fl co L p E).
  - rewrite E. reflexivity.
Qed.

(** A search through the cache finds what the search without it finds. *)
Lemma cached_search_eq pattern text fl c p :
  cache_consistent c -> compile pattern = Ok p ->
  fst (cached_search pattern text fl c) = search pattern text fl /\
  cache_consistent (snd (cached_search pattern text fl c)).
Proof.
  intros Hc E. unfold cached_search, search.
  pose proof (@compile_in_consistent pattern fl c Hc) as Hc'.
  pose proof (@compile_in_result pattern fl c p Hc E) as R.
  destruct (_compile pattern fl c) as [r c1]. cbn [fst snd] in *. subst r.
  rewrite E. cbn. auto.
Qed.

Lemma extract_size_in_eq text c :
  cache_consistent c ->
  fst (_extract_size_in text c) = _extract_size text /\
  cache_consistent (snd (_extract_size_in text c)).
Proof.
  intros Hc. unfold _extract_size_in, _extract_size.
  destruct (@cached_search_eq size_pattern text false c _ Hc
              size_pattern_compiles) as [E Hc'].
  destruct (cached_search size_pattern text false c) as [r c1].
  cbn [fst snd] in E, Hc'. subst r.
  destruct (search size_pattern text false) as [m|e]; cbn [fst snd bind]; auto.
Qed.

(** The extraction through the cache returns the record of the
    extraction without it, and leaves the cache consistent. *)
Lemma extract_cover_specs_in_eq description c :
  cache_consistent c ->
  fst (_extract_cover_specs_in description c)
  = _extract_cover_specs description /\
  cache_consistent (snd (_extract_cover_specs_in description c)).
Proof.
  intros Hc. unfold _extract_cover_specs_in, _extract_cover_specs.
  destruct (@cached_search_eq waterproof_pattern description true c _ Hc
              waterproof_pattern_compiles) as [E1 Hc1].
  destruct (cached_search waterproof_pattern description true c) as [r1 c1].
  cbn [fst snd] in E1, Hc1. subst r1.
  destruct (search waterproof_pattern description true) as [wp|e1];
    cbn [fst snd bind]; [|auto].
  destruct (@cached_search_eq uv_pattern description true c1 _ Hc1
              uv_pattern_compiles) as [E2 Hc2].
  destruct (cached_search uv_pattern description true c1) as [r2 c2].
  cbn [fst snd] in E2, Hc2. subst r2.
  destruct (search uv_pattern description true) as [uv|e2];
    cbn [fst snd bind]; [|auto].
  destruct (@extract_size_in_eq description c2 Hc2) as [E3 Hc3].
  destruct (_extract_size_in description c2) as [r3 c3].
  cbn [fst snd] in E3, Hc3. subst r3.
  destruct (_extract_size description) as [sz|e3]; cbn [fst snd bind]; auto.
Qed.

(** The cache after a first call on an empty cache: the three patterns,
    in the order in which the call searches them. *)
Example cache_after_first_call :
  List.map fst (snd (_extract_cover_specs_in (py "rain proof") [])) =
  [ (str_pattern, waterproof_pattern, 2);
    (str_pattern, uv_pattern, 2);
    (str_pattern, size_pattern, 0) ].
Proof. vm_compute. reflexivity. Qed.

(** A second call finds the three patterns there and stores nothing. *)
Example cache_after_second_call :
  let c1 := snd (_extract_cover_specs_in (py "rain proof") []) in
  snd (_extract_cover_specs_in (py "rain proof") c1) = c1.
Proof. vm_compute. reflexivity. Qed.

(** C4. Determinism: two invocations on the same description yield the
    same record.  The second invocation runs in the state of the pattern
    cache that the first has left, and finds there the patterns that the
    first had to compile; an invocation elsewhere runs in any other state
    of the cache.  All return the same record. *)
Theorem extract_cover_specs_deterministic :
  forall (description : str) (c c' : cache),
    cache_consistent c -> cache_consistent c' ->
    exists (record : specs) (c1 c2 c1' : cache),
      _extract_cover_specs_in description c = (Ok record, c1) /\
      _extract_cover_specs_in description c1 = (Ok record, c2) /\
      _extract_cover_specs_in description c' = (Ok record, c1').
Proof.
  intros description c c' Hc Hc'.
  destruct (extract_cover_specs_eq description) as [sz [_ E]].
  destruct (@extract_cover_specs_in_eq description c Hc) as [E1 Hc1].
  destruct (_extract_cover_specs_in description c) as [r1 c1] eqn:R1.
  cbn [fst snd] in E1, Hc1.
  destruct (@extract_cover_specs_in_eq description c1 Hc1) as [E2 _].
  destruct (_extract_cover_specs_in description c1) as [r2 c2] eqn:R2.
  destruct (@extract_cover_specs_in_eq description c' Hc') as [E3 _].
  destruct (_extract_cover_specs_in description c') as [r3 c3] eqn:R3.
  cbn [fst snd] in E2, E3. rewrite E in E1, E2, E3. subst.
  eexists _, c1, c2, c3. auto.
Qed.

Lemma other_cache_consistent : cache_consistent other_cache.
Proof.
  intros pattern fl co [H|[H|[]]] p E.
  - discriminate H.
  - injection H as <- F <-. destruct fl; [|discriminate F].
    rewrite uv_pattern_compiles in E. now injection E as <-.
Qed.

Lemma extract_cover_specs_deterministic_witness :
  exists (record : specs) (c1 c2 c1' : cache),
    _extract_cover_specs_in (py "rain proof") [] = (Ok record, c1) /\
    _extract_cover_specs_in (py "rain proof") c1 = (Ok record, c2) /\
    _extract_cover_specs_in (py "rain proof") other_cache = (Ok record, c1').
Proof.
  apply (@extract_cover_specs_deterministic (py "rain proof") [] other_cache).
  - intros pattern fl co [].
  - exact other_cache_consistent.
Defined.
